(** * Inter-annotator agreement for QANom annotations

    A shallow embedding of
    [qanom/annotations_evaluations/evaluate_inter_annotator.py]:
    the helpers over the annotation table, the two pair-enumeration
    loops around the argument matcher, and the aggregation of the
    matcher's results into per-worker and global totals. *)

From Stdlib Require Import ZArith QArith List.
From Stdlib Require Import Ascii DecimalString DecimalZ DecimalPos.
From stdpp Require Import gmap strings list fin_maps sorting.

Close Scope Q_scope.
Open Scope string_scope.
Open Scope list_scope.
Open Scope Z_scope.

#[local] Set Warnings "-clear-no-such-hyp".

(** ** Exceptions and results *)

(** [KeyError], [ValueError] and [ZeroDivisionError] are the Python
    exceptions the module can raise itself.  [DivisionUndefined] is the
    condition the metric classes signal, and [DataIntegrityError] belongs to
    the error taxonomy of the specification; no statement of the module
    raises the latter. *)
Inductive error :=
| KeyError (k : string)
| ValueError
| ZeroDivisionError
| DivisionUndefined
| DataIntegrityError.

Inductive result (A : Type) :=
| Ok (a : A)
| Err (e : error).

Arguments Ok {A} a.
Arguments Err {A} e.

Definition is_ok {A} (r : result A) : bool :=
  match r with Ok _ => true | Err _ => false end.

Global Instance result_ret : MRet result := λ A a, Ok a.

Global Instance result_bind : MBind result := λ A B f r,
  match r with
  | Ok a => f a
  | Err e => Err e
  end.

(** ** The metric classes *)

Module Metrics.

(** Modelled from the spec: the class [Metrics] of
    [annotations_evaluations/evaluate.py], which is not part of the
    sources at hand.  An accumulator of (true positive, false positive,
    false negative) counts; addition is componentwise; precision, recall
    and F1 are [0] when their denominator is [0]. *)
Record t := Mk {
  true_positive : Z;
  false_positive : Z;
  false_negative : Z
}.

Definition empty : t := Mk 0 0 0.

Definition add (a b : t) : t :=
  Mk (true_positive a + true_positive b)
     (false_positive a + false_positive b)
     (false_negative a + false_negative b).

Definition ratio (num den : Z) : Q :=
  if den =? 0 then 0%Q else (inject_Z num / inject_Z den)%Q.

Definition prec (m : t) : Q :=
  ratio (true_positive m) (true_positive m + false_positive m).

Definition recall (m : t) : Q :=
  ratio (true_positive m) (true_positive m + false_negative m).

Definition f1 (m : t) : Q :=
  let p := prec m in
  let r := recall m in
  if Qeq_bool (p + r) 0 then 0%Q else (2 * p * r / (p + r))%Q.

(** Modelled from the spec: the builtin [sum] over a list of metrics.  It
    starts from the integer [0], which the class absorbs as the identity
    of its addition, and adds the elements from left to right. *)
Definition sum (l : list t) : t := fold_left add l empty.

End Metrics.

Module BinaryClassificationMetrics.

(** Modelled from the spec: the class [BinaryClassificationMetrics] of
    [annotations_evaluations/evaluate.py], which is not part of the
    sources at hand.  Counts of the binary is-verbal judgment, added
    componentwise; [accuracy] is undefined on zero instances and signals
    that instead of returning [0]. *)
Record t := Mk {
  true_positive : Z;
  false_positive : Z;
  false_negative : Z;
  true_negative : Z
}.

Definition empty : t := Mk 0 0 0 0.

Definition add (a b : t) : t :=
  Mk (true_positive a + true_positive b)
     (false_positive a + false_positive b)
     (false_negative a + false_negative b)
     (true_negative a + true_negative b).

Definition instances (m : t) : Z :=
  true_positive m + false_positive m + false_negative m + true_negative m.

Definition errors (m : t) : Z := false_positive m + false_negative m.

Definition accuracy (m : t) : result Q :=
  if instances m =? 0 then Err DivisionUndefined
  else Ok (inject_Z (true_positive m + true_negative m)
           / inject_Z (instances m))%Q.

Definition sum (l : list t) : t := fold_left add l empty.

End BinaryClassificationMetrics.

(** ** The annotation table *)

(** One row of the annotation [DataFrame].  [verb] and [question] are
    nullable; [key], [n_workers] and [n_roles] are the derived columns the
    module may add, [None] while the column is absent (or holds no value). *)
Record Row := MkRow {
  qasrl_id : string;
  sentence : string;
  verb_idx : Z;
  verb : option string;
  worker_id : string;
  is_verbal : bool;
  question : option string;
  answer : option string;
  key : option string;
  n_workers : option nat;
  n_roles : option nat
}.

(** A [DataFrame]: the names of its columns, in order, and its rows. *)
Record DataFrame := MkDataFrame {
  columns : list string;
  rows : list Row
}.

Global Instance Row_eq_dec : EqDecision Row.
Proof. solve_decision. Defined.

Global Instance DataFrame_eq_dec : EqDecision DataFrame.
Proof. solve_decision. Defined.

Definition with_key (r : Row) (k : option string) : Row :=
  MkRow (qasrl_id r) (sentence r) (verb_idx r) (verb r) (worker_id r)
        (is_verbal r) (question r) (answer r) k (n_workers r) (n_roles r).

Definition with_n_workers (r : Row) (n : option nat) : Row :=
  MkRow (qasrl_id r) (sentence r) (verb_idx r) (verb r) (worker_id r)
        (is_verbal r) (question r) (answer r) (key r) n (n_roles r).

Definition with_n_roles (r : Row) (n : option nat) : Row :=
  MkRow (qasrl_id r) (sentence r) (verb_idx r) (verb r) (worker_id r)
        (is_verbal r) (question r) (answer r) (key r) (n_workers r) n.

(** [df[name] = values]: an existing column is overwritten in place, a new
    one is appended to [df.columns]. *)
Definition add_column (name : string) (cols : list string) : list string :=
  if decide (name ∈ cols) then cols else cols ++ [name].

Definition assign (name : string) (set : Row → Row) (df : DataFrame)
  : DataFrame :=
  MkDataFrame (add_column name (columns df)) (set <$> rows df).

(** ** Pandas and itertools primitives *)

Section primitives.
Context {A K : Type} `{EqDecision K}.

(** [drop_duplicates] on the columns picked by [f]: the first row of every
    value of [f] is kept, in the order of the table. *)
Fixpoint drop_duplicates_from (f : A → K) (seen : list K) (l : list A)
  : list A :=
  match l with
  | [] => []
  | x :: l' =>
      if decide (f x ∈ seen) then drop_duplicates_from f seen l'
      else x :: drop_duplicates_from f (f x :: seen) l'
  end.

Definition drop_duplicates (f : A → K) (l : list A) : list A :=
  drop_duplicates_from f [] l.

(** [Series.count] of a nullable column: the number of non-null values. *)
Definition count_notna {B} (f : A → option B) (l : list A) : nat :=
  length (omap f l).
End primitives.

(** [Series.unique]: the distinct values in order of first appearance. *)
Definition unique {A} `{EqDecision A} (l : list A) : list A :=
  drop_duplicates id l.

(** [Series.nunique]: the number of distinct non-null values. *)
Definition nunique {A B} `{EqDecision B} (f : A → option B) (l : list A)
  : nat :=
  length (unique (omap f l)).

(** [itertools.permutations(l, r=2)]: every position paired with every
    other position, in lexicographic order of the positions. *)
Fixpoint permutations2_from {A} (before l : list A) : list (A * A) :=
  match l with
  | [] => []
  | x :: after =>
      (pair x <$> (before ++ after)) ++ permutations2_from (before ++ [x]) after
  end.

Definition permutations2 {A} (l : list A) : list (A * A) :=
  permutations2_from [] l.

(** [itertools.combinations(l, r=2)]: every position paired with every
    later position. *)
Fixpoint combinations2 {A} (l : list A) : list (A * A) :=
  match l with
  | [] => []
  | x :: after => (pair x <$> after) ++ combinations2 after
  end.

(** [dict(zip(keys, values))]: a later pair overrides an earlier one with
    the same key. *)
Definition dict_of_pairs {V} (l : list (string * V)) : gmap string V :=
  fold_left (λ m kv, <[kv.1 := kv.2]> m) l ∅.

(** [str.split()] without arguments: the maximal runs of non-whitespace
    characters.  A character of a string is a code point below 256; the
    whitespace ones among them are U+0009 to U+000D, U+001C to U+0020,
    U+0085 and U+00A0. *)
Definition is_space (c : Ascii.ascii) : bool :=
  let n := Ascii.nat_of_ascii c in
  ((9 <=? n) && (n <=? 13) || (28 <=? n) && (n <=? 32)
   || (n =? 133) || (n =? 160))%nat.

Fixpoint split_from (word : string) (s : string) : list string :=
  match s with
  | EmptyString => if decide (word = "") then [] else [word]
  | String c s' =>
      if is_space c then
        if decide (word = "") then split_from "" s'
        else word :: split_from "" s'
      else split_from (word +:+ String c "") s'
  end.

Definition str_split (s : string) : list string := split_from "" s.

(** [str(i)] for an integer [i]: its decimal numeral, with a leading minus
    sign when negative. *)
Definition str_of_int (i : Z) : string :=
  NilZero.string_of_int (Z.to_int i).

(** Sorting of group labels, as [groupby] does for its keys. *)
Definition sort_strings (l : list string) : list string :=
  merge_sort String.le l.

(** ** The matcher and the state of a run *)

(** What one call of [eval_datasets] receives.  [allow_overlaps] is a keyword
    argument with a default: [None] stands for a call that omits it. *)
Record MatcherCall := MkCall {
  call_w1_df : DataFrame;
  call_w2_df : DataFrame;
  call_sent_map : gmap string (list string);
  call_allow_overlaps : option bool
}.

(** The 4-tuple [eval_datasets] returns. *)
Record MatcherOutput := MkOutput {
  arg_metrics : Metrics.t;
  role_metrics : Metrics.t;
  nom_ident_metrics : BinaryClassificationMetrics.t;
  matching_args : DataFrame
}.

(** The mutable state a run can touch: the table object the caller passed
    in (functions that alias it update it in place), and the log of the
    calls made to the matcher. *)
Record World := MkWorld {
  annot_df : DataFrame;
  matcher_calls : list MatcherCall
}.

Definition M (A : Type) : Type := World → result A * World.

Global Instance M_ret : MRet M := λ A a w, (Ok a, w).

Global Instance M_bind : MBind M := λ A B f m w,
  match m w with
  | (Ok a, w') => f a w'
  | (Err e, w') => (Err e, w')
  end.

Definition lift {A} (r : result A) : M A := λ w, (r, w).

Definition get_df : M DataFrame := λ w, (Ok (annot_df w), w).

Definition put_df (df : DataFrame) : M unit :=
  λ w, (Ok tt, MkWorld df (matcher_calls w)).

(** The state of the world after one more call of the matcher. *)
Definition logged (w : World) (c : MatcherCall) : World :=
  MkWorld (annot_df w) (matcher_calls w ++ [c]).

Definition log_call (c : MatcherCall) : M unit := λ w, (Ok tt, logged w c).

(** A [for] loop that threads an accumulator. *)
Fixpoint foldM {A S} (f : S → A → M S) (s : S) (l : list A) : M S :=
  match l with
  | [] => mret s
  | x :: l' => s' ← f s x; foldM f s' l'
  end.

(** [d[k]] on a dictionary. *)
Definition dict_get {V} (d : gmap string V) (k : string) : result V :=
  match d !! k with
  | Some v => Ok v
  | None => Err (KeyError k)
  end.

(** [d[k]] on a dictionary kept in insertion order. *)
Fixpoint assoc_get {V} (d : list (string * V)) (k : string) : result V :=
  match d with
  | [] => Err (KeyError k)
  | (k', v) :: d' => if decide (k' = k) then Ok v else assoc_get d' k
  end.

(** [d[k].append(x)] on a [defaultdict(list)]. *)
Definition dict_append {V} (d : gmap string (list V)) (k : string) (x : V)
  : gmap string (list V) :=
  <[k := default [] (d !! k) ++ [x]]> d.

(** ** Helper functions over the annotation table *)

Definition get_sent_map (annot_df : DataFrame)
  : result (gmap string (list string)) :=
  Ok (dict_of_pairs
        ((λ r, (qasrl_id r, str_split (sentence r))) <$> rows annot_df)).

(** The predicate occurrence of a row: the columns [qasrl_id], [verb_idx]. *)
Definition cols (r : Row) : string * Z := (qasrl_id r, verb_idx r).

(** [df[df.worker_id == w]] *)
Definition select_worker (df : DataFrame) (w : string) : DataFrame :=
  MkDataFrame (columns df) (filter (λ r, worker_id r = w) (rows df)).

Definition set_n_workers : M DataFrame :=
  df ← get_df;
  put_df (assign "n_workers"
    (λ r, with_n_workers r
       (Some (nunique (λ r', Some (worker_id r'))
                (filter (λ r', cols r' = cols r) (rows df)))))
    df);;
  get_df.

Definition set_n_roles : M DataFrame :=
  df ← get_df;
  put_df (assign "n_roles"
    (λ r, with_n_roles r
       (Some (count_notna verb
                (filter (λ r', (cols r', worker_id r') = (cols r, worker_id r))
                   (rows df)))))
    df);;
  get_df.

Definition get_n_predicates (df : DataFrame) : nat :=
  length (drop_duplicates cols (rows df)).

Definition get_n_positive_predicates (worker_df : DataFrame) : result nat :=
  if decide ("key" ∈ columns worker_df) then
    let reduced_df := drop_duplicates key (rows worker_df) in
    Ok (length (filter (λ r, is_verbal r = true) reduced_df))
  else Err (KeyError "key").

Record BasicStatistics := MkBasic {
  num_predicates : nat;
  num_QAs : nat
}.

(** The key string of a row: [r['qasrl_id'] + "_" + str(r['verb_idx'])]. *)
Definition make_key (sid : string) (idx : Z) : string :=
  sid +:+ "_" +:+ str_of_int idx.

(** On a table without rows [df.apply(..., axis=1)] gives back a frame, not
    a column, and assigning it to [df['key']] raises [ValueError]; nothing
    is added to the table then. *)
Definition get_worker_statistics : M (list (string * BasicStatistics)) :=
  df ← get_df;
  (if decide ("key" ∈ columns df) then mret tt
   else if decide (rows df = []) then lift (Err ValueError)
   else put_df (assign "key"
          (λ r, with_key r (Some (make_key (qasrl_id r) (verb_idx r)))) df));;
  df ← get_df;
  let workers := sort_strings (unique (worker_id <$> rows df)) in
  mret ((λ worker,
           let by_worker := rows (select_worker df worker) in
           (worker, MkBasic (nunique key by_worker)
                            (count_notna question by_worker)))
        <$> workers).

(** ** Analysis functions *)

(** Console output is not modelled.  An expression that is evaluated only
    to be printed appears where its evaluation can raise; what a function
    prints as its summary is taken as its result. *)

Record WorkerStatistics := MkStats {
  stat_num_predicates : nat;
  stat_num_QAs : nat;
  stat_arg_agreement : Metrics.t;
  stat_is_verbal_accuracy : Q
}.

(** The three running totals of [evaluate_generator_agreement]. *)
Record Totals := MkTotals {
  total_arg_metric : Metrics.t;
  total_role_metric : Metrics.t;
  total_nomIdent_metric : BinaryClassificationMetrics.t
}.

(** What [evaluate_generator_agreement] prints under "Overall pairwise
    agreement". *)
Record GeneratorReport := MkReport {
  report_arg_f1 : Q;
  report_role_f1 : Q;
  report_is_verbal_accuracy : Q;
  report_comparisons : Z
}.

(** What [describe_worker_work] prints for one worker. *)
Record WorkerDescription := MkDescription {
  descr_n_predicates : nat;
  descr_n_positive_predicates : nat;
  descr_positive_ratio : Q;
  descr_roleDist : gmap nat nat;
  descr_num_roles_average : Q;
  descr_agreement : WorkerStatistics
}.

Definition empty_totals : Totals :=
  MkTotals Metrics.empty Metrics.empty BinaryClassificationMetrics.empty.

(** The three [+=] at the end of the loop body of
    [evaluate_generator_agreement]. *)
Definition accumulate (tot : Totals) (out : MatcherOutput) : Totals :=
  MkTotals (Metrics.add (total_arg_metric tot) (arg_metrics out))
           (Metrics.add (total_role_metric tot) (role_metrics out))
           (BinaryClassificationMetrics.add (total_nomIdent_metric tot)
              (nom_ident_metrics out)).

(** The two [append]s at the end of the loop body of
    [evaluate_per_worker_iaa]. *)
Definition attribute
  (st : gmap string (list Metrics.t)
        * gmap string (list BinaryClassificationMetrics.t))
  (w1 : string) (out : MatcherOutput)
  : gmap string (list Metrics.t)
    * gmap string (list BinaryClassificationMetrics.t) :=
  (dict_append st.1 w1 (arg_metrics out),
   dict_append st.2 w1 (nom_ident_metrics out)).

(** [Counter(values)] *)
Definition counter (values : list nat) : gmap nat nat :=
  fold_left (λ c v, <[v := S (default 0%nat (c !! v))]> c) values ∅.

Definition Qnat (n : nat) : Q := inject_Z (Z.of_nat n).

(** [a / b] on floats, with [a] and [b] counts. *)
Definition true_div (a b : nat) : result Q :=
  if decide (b = 0%nat) then Err ZeroDivisionError
  else Ok (Qnat a / Qnat b)%Q.

(** The body of the statistics loop of [evaluate_per_worker_iaa]: the line
    printed under [isPrinting], then the [update] of the worker's record.
    Both look the worker up in the two performance dictionaries and ask for
    the accuracy. *)
Definition worker_row (isPrinting : bool)
    (worker_arg_performance : gmap string Metrics.t)
    (worker_isnom_performance : gmap string BinaryClassificationMetrics.t)
    (worker_id : string) (statistics : BasicStatistics)
  : result (string * WorkerStatistics) :=
  let update :=
    arg ← dict_get worker_arg_performance worker_id;
    total ← dict_get worker_isnom_performance worker_id;
    acc ← BinaryClassificationMetrics.accuracy total;
    mret (worker_id,
          MkStats (num_predicates statistics) (num_QAs statistics) arg acc) in
  if isPrinting then
    dict_get worker_arg_performance worker_id;;
    total ← dict_get worker_isnom_performance worker_id;
    BinaryClassificationMetrics.accuracy total;;
    update
  else update.

Section analysis.

(** The argument matcher [eval_datasets] of
    [annotations_evaluations/argument_first_evaluation.py], an external
    collaborator taken as a black box. *)
Variable eval_datasets :
  DataFrame → DataFrame → gmap string (list string) → option bool
  → MatcherOutput.

Definition call_eval_datasets (w1_df w2_df : DataFrame)
    (sent_map : gmap string (list string)) (allow_overlaps : option bool)
  : M MatcherOutput :=
  log_call (MkCall w1_df w2_df sent_map allow_overlaps);;
  mret (eval_datasets w1_df w2_df sent_map allow_overlaps).

(** The pair loop of [evaluate_per_worker_iaa]. *)
Definition iaa_agreements (annot_df : DataFrame)
    (sent_map : gmap string (list string)) (workers : list string)
  : M (gmap string (list Metrics.t)
       * gmap string (list BinaryClassificationMetrics.t)) :=
  foldM (λ st '(w1, w2),
      let w1_df := select_worker annot_df w1 in
      let w2_df := select_worker annot_df w2 in
      out ← call_eval_datasets w1_df w2_df sent_map (Some false);
      mret (attribute st w1 out))
    (∅, ∅) (permutations2 workers).

Definition evaluate_per_worker_iaa (isPrinting : bool)
  : M (list (string * WorkerStatistics)) :=
  annot_df ← get_df;
  sent_map ← lift (get_sent_map annot_df);
  let workers := unique (worker_id <$> rows annot_df) in
  '(arg_agreements, nom_ident_agreements) ←
    iaa_agreements annot_df sent_map workers;
  let worker_arg_performance := Metrics.sum <$> arg_agreements in
  let worker_isnom_performance :=
    BinaryClassificationMetrics.sum <$> nom_ident_agreements in
  worker_general_statistics ← get_worker_statistics;
  mapM (λ '(worker_id, statistics),
      lift (worker_row isPrinting worker_arg_performance
              worker_isnom_performance worker_id statistics))
    worker_general_statistics.

(** The pair loop of [evaluate_generator_agreement]. *)
Definition generator_totals (verbose : bool) (annot_df : DataFrame)
    (sent_map : gmap string (list string)) (workers : list string)
  : M Totals :=
  foldM (λ tot '(w1, w2),
      let w1_df := select_worker annot_df w1 in
      let w2_df := select_worker annot_df w2 in
      out ← call_eval_datasets w1_df w2_df sent_map (Some false);
      (if verbose then
         lift (BinaryClassificationMetrics.accuracy (nom_ident_metrics out));;
         mret tt
       else mret tt);;
      mret (accumulate tot out))
    empty_totals (combinations2 workers).

Definition evaluate_generator_agreement (verbose : bool)
  : M GeneratorReport :=
  annot_df ← get_df;
  sent_map ← lift (get_sent_map annot_df);
  let workers := unique (worker_id <$> rows annot_df) in
  tot ← generator_totals verbose annot_df sent_map workers;
  acc ← lift (BinaryClassificationMetrics.accuracy
                (total_nomIdent_metric tot));
  mret (MkReport (Metrics.f1 (total_arg_metric tot))
                 (Metrics.f1 (total_role_metric tot))
                 acc
                 (BinaryClassificationMetrics.instances
                    (total_nomIdent_metric tot))).

Definition describe_worker_work : M (list WorkerDescription) :=
  annot_df0 ← get_df;
  sent_map ← lift (get_sent_map annot_df0);
  let workers := unique (worker_id <$> rows annot_df0) in
  agreement_stats ← evaluate_per_worker_iaa false;
  general_worker_stats ← get_worker_statistics;
  mapM (λ worker,
      annot_df ← get_df;
      let df := select_worker annot_df worker in
      let n_predicates := get_n_predicates df in
      n_positive_predicates ← lift (get_n_positive_predicates df);
      lift (if decide ("key" ∈ columns df) then Ok tt
            else Err (KeyError "key"));;
      let verbal := filter (λ r, is_verbal r = true) (rows df) in
      let roleDist :=
        counter ((λ k, count_notna question
                         (filter (λ r, key r = Some k) verbal))
                 <$> unique (omap key verbal)) in
      let sum_roles := map_fold (λ k v acc, k * v + acc)%nat 0%nat roleDist in
      num_roles_average ← lift (true_div sum_roles n_positive_predicates);
      ratio ← lift (true_div n_positive_predicates n_predicates);
      stats ← lift (assoc_get agreement_stats worker);
      mret (MkDescription n_predicates n_positive_predicates ratio
              roleDist num_roles_average stats))
    workers.

(** The result of comparing the pair [p] of workers, and the call that
    produces it. *)
Definition compare (df : DataFrame) (sm : gmap string (list string))
    (p : string * string) : MatcherOutput :=
  eval_datasets (select_worker df p.1) (select_worker df p.2) sm (Some false).

Definition call_of (df : DataFrame) (sm : gmap string (list string))
    (p : string * string) : MatcherCall :=
  MkCall (select_worker df p.1) (select_worker df p.2) sm (Some false).

(** The sequence of comparison results of the ordered pairing, each with
    the worker it is attributed to, and of the unordered pairing. *)
Definition ordered_results df sm (workers : list string)
  : list (string * MatcherOutput) :=
  (λ p, (p.1, compare df sm p)) <$> permutations2 workers.

Definition unordered_results df sm (workers : list string)
  : list MatcherOutput :=
  compare df sm <$> combinations2 workers.

End analysis.

(** ** Notions used in the statements *)

(** The per-worker lists built from a sequence of comparison results, each
    attributed to a worker. *)
Definition attribute_all (results : list (string * MatcherOutput))
  : gmap string (list Metrics.t)
    * gmap string (list BinaryClassificationMetrics.t) :=
  fold_left (λ st p, attribute st p.1 p.2) results (∅, ∅).

(** The per-worker totals of [evaluate_per_worker_iaa]: the [sum] of every
    worker's list. *)
Definition per_worker_totals (results : list (string * MatcherOutput))
  : gmap string Metrics.t * gmap string BinaryClassificationMetrics.t :=
  (Metrics.sum <$> (attribute_all results).1,
   BinaryClassificationMetrics.sum <$> (attribute_all results).2).

(** The global totals of [evaluate_generator_agreement]: repeated [+=] from
    the empty totals. *)
Definition global_totals (results : list MatcherOutput) : Totals :=
  fold_left accumulate results empty_totals.

(** The sum of a list of counts. *)
Definition sumZ (l : list Z) : Z := foldr Z.add 0 l.

(** The componentwise sum of a list of metrics. *)
Definition metrics_total (l : list Metrics.t) : Metrics.t :=
  Metrics.Mk (sumZ (Metrics.true_positive <$> l))
             (sumZ (Metrics.false_positive <$> l))
             (sumZ (Metrics.false_negative <$> l)).

Definition binary_total (l : list BinaryClassificationMetrics.t)
  : BinaryClassificationMetrics.t :=
  BinaryClassificationMetrics.Mk
    (sumZ (BinaryClassificationMetrics.true_positive <$> l))
    (sumZ (BinaryClassificationMetrics.false_positive <$> l))
    (sumZ (BinaryClassificationMetrics.false_negative <$> l))
    (sumZ (BinaryClassificationMetrics.true_negative <$> l)).

(** The is-verbal metrics of a comparison hold no instance, so that their
    accuracy is undefined. *)
Definition no_instances (out : MatcherOutput) : bool :=
  BinaryClassificationMetrics.instances (nom_ident_metrics out) =? 0.

(** The part of a list a loop goes through when it stops on the first
    element that satisfies [stop]: the elements up to that one, included. *)
Fixpoint up_to_first {A} (stop : A → bool) (l : list A) : list A :=
  match l with
  | [] => []
  | x :: l' => x :: (if stop x then [] else up_to_first stop l')
  end.

(** [get_worker_statistics] can make sure of the [key] column: the table
    has one, or has a row to compute it from. *)
Definition statistics_ready (df : DataFrame) : Prop :=
  "key" ∈ columns df ∨ rows df ≠ [].

Global Instance statistics_ready_dec df : Decision (statistics_ready df).
Proof. unfold statistics_ready. apply _. Defined.

(** The table once [get_worker_statistics] has made sure of its [key]
    column, for a table that has one or has a row to compute it from. *)
Definition keyed (df : DataFrame) : DataFrame :=
  if decide ("key" ∈ columns df) then df
  else assign "key"
         (λ r, with_key r (Some (make_key (qasrl_id r) (verb_idx r)))) df.

(** The records [get_worker_statistics] builds from a table with a [key]
    column. *)
Definition basic_statistics (df : DataFrame)
  : list (string * BasicStatistics) :=
  (λ worker,
     (worker, MkBasic (nunique key (rows (select_worker df worker)))
                (count_notna question (rows (select_worker df worker)))))
  <$> sort_strings (unique (worker_id <$> rows df)).

(** Two rows of the table give the same sentence id two tokenizations. *)
Definition conflicting_tokenizations (df : DataFrame) : Prop :=
  ∃ r1 r2, r1 ∈ rows df ∧ r2 ∈ rows df ∧ qasrl_id r1 = qasrl_id r2
           ∧ str_split (sentence r1) ≠ str_split (sentence r2).

(** The string holds no underscore. *)
Fixpoint no_underscore (s : string) : Prop :=
  match s with
  | EmptyString => True
  | String c s' => c ≠ "_"%char ∧ no_underscore s'
  end.

(** The rows of a table hold, in their [key] column, the key string of
    their predicate occurrence. *)
Definition keys_encoded (l : list Row) : Prop :=
  Forall (λ r, key r = Some (make_key (qasrl_id r) (verb_idx r))) l.

(** The string holds no whitespace character. *)
Fixpoint no_space (s : string) : Prop :=
  match s with
  | EmptyString => True
  | String c s' => is_space c = false ∧ no_space s'
  end.

(** The same call with the two workers exchanged. *)
Definition swap_call (c : MatcherCall) : MatcherCall :=
  MkCall (call_w2_df c) (call_w1_df c) (call_sent_map c)
    (call_allow_overlaps c).

(** The body of the loop of [describe_worker_work], for one worker. *)
Definition describe_worker (agreement_stats : list (string * WorkerStatistics))
    (worker : string) : M WorkerDescription :=
  annot_df ← get_df;
  let df := select_worker annot_df worker in
  let n_predicates := get_n_predicates df in
  n_positive_predicates ← lift (get_n_positive_predicates df);
  lift (if decide ("key" ∈ columns df) then Ok tt
        else Err (KeyError "key"));;
  let verbal := filter (λ r, is_verbal r = true) (rows df) in
  let roleDist :=
    counter ((λ k, count_notna question
                     (filter (λ r, key r = Some k) verbal))
             <$> unique (omap key verbal)) in
  let sum_roles := map_fold (λ k v acc, k * v + acc)%nat 0%nat roleDist in
  num_roles_average ← lift (true_div sum_roles n_positive_predicates);
  ratio ← lift (true_div n_positive_predicates n_predicates);
  stats ← lift (assoc_get agreement_stats worker);
  mret (MkDescription n_predicates n_positive_predicates ratio
          roleDist num_roles_average stats).

(** ** Example data *)

Definition sample_rows : list Row :=
  [ MkRow "s1" "the big  decision was made" 3 (Some "decision") "A" true
      (Some "who decided something?") (Some "the board") None None None;
    MkRow "s1" "the big  decision was made" 3 (Some "decision") "B" false
      None None None None None;
    MkRow "s2" "no agreement  yet" 1 (Some "agreement") "B" true
      (Some "who agreed?") (Some "no one") None None None;
    MkRow "s2" "no agreement  yet" 1 (Some "agreement") "C" true
      (Some "who agreed?") (Some "no one") None None None ].

Definition sample_columns : list string :=
  ["qasrl_id"; "sentence"; "verb_idx"; "verb"; "worker_id"; "is_verbal";
   "question"; "answer"].

Definition sample_table : DataFrame := MkDataFrame sample_columns sample_rows.

Definition sample_world : World := MkWorld sample_table [].

(** A stand-in for the matcher: it counts rows, and so is not symmetric. *)
Definition sample_matcher (w1_df w2_df : DataFrame)
    (sent_map : gmap string (list string)) (allow_overlaps : option bool)
  : MatcherOutput :=
  let n1 := Z.of_nat (length (rows w1_df)) in
  let n2 := Z.of_nat (length (rows w2_df)) in
  MkOutput (Metrics.Mk n1 n2 0) (Metrics.Mk n1 0 n2)
    (BinaryClassificationMetrics.Mk n1 0 0 n2) w1_df.

Definition sample_sent_map : gmap string (list string) :=
  {[ "s1" := ["the"; "big"; "decision"; "was"; "made"];
     "s2" := ["no"; "agreement"; "yet"] ]}.

Definition lone_table : DataFrame :=
  MkDataFrame sample_columns (take 1 sample_rows).

Definition zero_matcher (w1_df w2_df : DataFrame)
    (sent_map : gmap string (list string)) (allow_overlaps : option bool)
  : MatcherOutput :=
  MkOutput Metrics.empty Metrics.empty BinaryClassificationMetrics.empty w1_df.

Definition conflict_table : DataFrame :=
  MkDataFrame sample_columns
    [ MkRow "s1" "a b" 1 (Some "b") "A" false None None None None None;
      MkRow "s1" "a c" 1 (Some "c") "B" false None None None None None ].

(** A worker's single row for a predicate judged not verbal: the [verb]
    column holds the noun, the [question] column is null. *)
Definition not_verbal_table : DataFrame :=
  MkDataFrame sample_columns
    [ MkRow "s1" "the big  decision was made" 3 (Some "decision") "B" false
        None None None None None ].

(** Two workers on one predicate occurrence, the second one with no row
    marked verbal. *)
Definition no_positive_table : DataFrame :=
  MkDataFrame sample_columns (take 2 sample_rows).

(** A table without rows, with the columns of the annotation files, and
    the same with a [key] column. *)
Definition empty_table : DataFrame := MkDataFrame sample_columns [].

Definition empty_keyed_table : DataFrame :=
  MkDataFrame (sample_columns ++ ["key"]) [].

(** A table that comes with a [key] column of its own, which holds the
    sentence id alone: the two rows of worker [A] are on two predicates of
    one sentence. *)
Definition sentence_key_table : DataFrame :=
  MkDataFrame (sample_columns ++ ["key"])
    [ MkRow "s1" "the big  decision was made" 3 (Some "decision") "A" true
        (Some "who decided something?") (Some "the board") (Some "s1")
        None None;
      MkRow "s1" "the big  decision was made" 5 (Some "made") "A" true
        (Some "who made something?") (Some "the board") (Some "s1")
        None None ].

(** * Properties *)

(** ** The metric algebra *)

Lemma metrics_add_comm a b : Metrics.add a b = Metrics.add b a.
Proof. unfold Metrics.add. f_equal; lia. Qed.

Lemma metrics_add_assoc a b c :
  Metrics.add (Metrics.add a b) c = Metrics.add a (Metrics.add b c).
Proof. unfold Metrics.add; simpl. f_equal; lia. Qed.

Lemma metrics_add_empty_r a : Metrics.add a Metrics.empty = a.
Proof. destruct a. unfold Metrics.add; simpl. f_equal; lia. Qed.

Lemma metrics_fold_add_permutation l l' a :
  l ≡ₚ l' → fold_left Metrics.add l a = fold_left Metrics.add l' a.
Proof.
  intros Hp. revert a.
  induction Hp as [|x l l' _ IH|x y l|l l' l'' _ IH1 _ IH2]; intros a; simpl.
  - done.
  - apply IH.
  - by rewrite !metrics_add_assoc, (metrics_add_comm y x).
  - by rewrite IH1.
Qed.

Lemma metrics_sum_permutation l l' : l ≡ₚ l' → Metrics.sum l = Metrics.sum l'.
Proof. apply metrics_fold_add_permutation. Qed.

Lemma binary_add_comm a b :
  BinaryClassificationMetrics.add a b = BinaryClassificationMetrics.add b a.
Proof. unfold BinaryClassificationMetrics.add. f_equal; lia. Qed.

Lemma binary_add_assoc a b c :
  BinaryClassificationMetrics.add (BinaryClassificationMetrics.add a b) c
  = BinaryClassificationMetrics.add a (BinaryClassificationMetrics.add b c).
Proof. unfold BinaryClassificationMetrics.add; simpl. f_equal; lia. Qed.

Lemma binary_add_empty_r a :
  BinaryClassificationMetrics.add a BinaryClassificationMetrics.empty = a.
Proof.
  destruct a. unfold BinaryClassificationMetrics.add; simpl. f_equal; lia.
Qed.

Lemma binary_fold_add_permutation l l' a :
  l ≡ₚ l' →
  fold_left BinaryClassificationMetrics.add l a
  = fold_left BinaryClassificationMetrics.add l' a.
Proof.
  intros Hp. revert a.
  induction Hp as [|x l l' _ IH|x y l|l l' l'' _ IH1 _ IH2]; intros a; simpl.
  - done.
  - apply IH.
  - by rewrite !binary_add_assoc, (binary_add_comm y x).
  - by rewrite IH1.
Qed.

Lemma binary_sum_permutation l l' :
  l ≡ₚ l' →
  BinaryClassificationMetrics.sum l = BinaryClassificationMetrics.sum l'.
Proof. apply binary_fold_add_permutation. Qed.

Lemma binary_instances_add a b :
  BinaryClassificationMetrics.instances (BinaryClassificationMetrics.add a b)
  = BinaryClassificationMetrics.instances a
    + BinaryClassificationMetrics.instances b.
Proof.
  unfold BinaryClassificationMetrics.instances,
    BinaryClassificationMetrics.add; simpl. lia.
Qed.

Lemma binary_instances_fold l a :
  Forall (λ m, BinaryClassificationMetrics.instances m = 0) l →
  BinaryClassificationMetrics.instances
    (fold_left BinaryClassificationMetrics.add l a)
  = BinaryClassificationMetrics.instances a.
Proof.
  intros H. revert a. induction H as [|m l Hm _ IH]; intros a; simpl.
  - done.
  - rewrite IH, binary_instances_add. lia.
Qed.

Lemma binary_accuracy_error m e :
  BinaryClassificationMetrics.accuracy m = Err e → e = DivisionUndefined.
Proof. unfold BinaryClassificationMetrics.accuracy. case_match; congruence. Qed.

Lemma binary_accuracy_undefined m :
  BinaryClassificationMetrics.instances m = 0 →
  BinaryClassificationMetrics.accuracy m = Err DivisionUndefined.
Proof.
  intros H. unfold BinaryClassificationMetrics.accuracy. by rewrite H.
Qed.

(** ** Distinct values and pair enumeration *)

Section unique_facts.
Context {A : Type} `{EqDecision A}.
Implicit Types (l seen : list A).

Lemma elem_of_unique_from seen l x :
  x ∈ drop_duplicates_from id seen l ↔ x ∈ l ∧ x ∉ seen.
Proof.
  revert seen. induction l as [|y l IH]; intros seen; simpl.
  - split; [by intros ?%elem_of_nil | by intros [?%elem_of_nil _]].
  - case_decide as Hy.
    + rewrite IH, elem_of_cons. naive_solver.
    + rewrite !elem_of_cons, IH, elem_of_cons. unfold id in *.
      destruct (decide (x = y)); naive_solver.
Qed.

Lemma NoDup_unique_from seen l : NoDup (drop_duplicates_from id seen l).
Proof.
  revert seen. induction l as [|y l IH]; intros seen; simpl.
  - constructor.
  - case_decide; [apply IH|]. constructor; [|apply IH].
    rewrite elem_of_unique_from, elem_of_cons. naive_solver.
Qed.

Lemma elem_of_unique l x : x ∈ unique l ↔ x ∈ l.
Proof.
  unfold unique, drop_duplicates. rewrite elem_of_unique_from.
  split; [naive_solver|]. intros ?; split; [done|]. by intros ?%elem_of_nil.
Qed.

Lemma NoDup_unique l : NoDup (unique l).
Proof. apply NoDup_unique_from. Qed.

Lemma unique_constant x l :
  l ≠ [] → Forall (λ y, y = x) l → unique l = [x].
Proof.
  intros Hne Hall. destruct l as [|y l]; [done|].
  apply Forall_cons in Hall as [-> Hall].
  unfold unique, drop_duplicates; simpl.
  f_equal. unfold id. clear Hne.
  induction Hall as [|y l -> _ IH]; simpl; [done|].
  rewrite decide_True; [done | by left].
Qed.
End unique_facts.

Lemma length_unique `{Countable A} (l : list A) :
  length (unique l) = size (list_to_set l : gset A).
Proof.
  rewrite <- (size_list_to_set (C:=gset A) (unique l)) by apply NoDup_unique.
  f_equal. apply set_eq. intros x.
  by rewrite !elem_of_list_to_set, elem_of_unique.
Qed.

Lemma unique_from_fmap_inj {A B} `{EqDecision A, EqDecision B}
    (f : A → B) `{!Inj (=) (=) f} (seen l : list A) :
  drop_duplicates_from id (f <$> seen) (f <$> l)
  = f <$> drop_duplicates_from id seen l.
Proof.
  revert seen. induction l as [|x l IH]; intros seen; simpl; [done|].
  unfold id at 1 3. destruct (decide (x ∈ seen)) as [Hx|Hx].
  - rewrite decide_True by (by apply list_elem_of_fmap_2). apply IH.
  - rewrite decide_False by (by intros ?%(list_elem_of_fmap_inj f)).
    simpl. f_equal. unfold id. apply (IH (x :: seen)).
Qed.

Lemma length_unique_fmap_inj {A B} `{EqDecision A, EqDecision B}
    (f : A → B) `{!Inj (=) (=) f} (l : list A) :
  length (unique (f <$> l)) = length (unique l).
Proof.
  unfold unique, drop_duplicates.
  by rewrite (unique_from_fmap_inj f [] l), length_fmap.
Qed.

Section pair_facts.
Context {A : Type}.
Implicit Types (l before : list A).

Lemma length_permutations2_from before l :
  length (permutations2_from before l)
  = (length l * (length before + length l - 1))%nat.
Proof.
  revert before. induction l as [|x l IH]; intros before; simpl; [done|].
  rewrite length_app, length_fmap, IH, !length_app. simpl. nia.
Qed.

Lemma length_permutations2 l :
  length (permutations2 l) = (length l * (length l - 1))%nat.
Proof. unfold permutations2. by rewrite length_permutations2_from. Qed.

Lemma elem_of_permutations2_from before l a b :
  NoDup (before ++ l) →
  (a, b) ∈ permutations2_from before l ↔ a ∈ l ∧ b ∈ before ++ l ∧ a ≠ b.
Proof.
  revert before. induction l as [|x l IH]; intros before Hnd; simpl.
  - split; [by intros ?%elem_of_nil | by intros [?%elem_of_nil _]].
  - assert (NoDup ((before ++ [x]) ++ l)) as Hnd'.
    { by rewrite <- app_assoc. }
    apply NoDup_app in Hnd as (_ & Hdisj & [Hx _]%NoDup_cons).
    rewrite elem_of_app, list_elem_of_fmap, (IH _ Hnd'), <- app_assoc.
    simpl. rewrite !elem_of_app, !elem_of_cons. split.
    + intros [(y & [= -> ->] & Hy%elem_of_app)|?]; [|naive_solver].
      split_and!; [by left | naive_solver |].
      intros ->. destruct Hy as [Hy|Hy]; [|done].
      apply (Hdisj _ Hy). by left.
    + intros ([->|Ha] & Hb & Hne); [|naive_solver].
      left. exists b. split; [done|]. rewrite elem_of_app. naive_solver.
Qed.

Lemma NoDup_permutations2_from before l :
  NoDup (before ++ l) → NoDup (permutations2_from before l).
Proof.
  revert before. induction l as [|x l IH]; intros before Hnd; simpl.
  - constructor.
  - assert (NoDup ((before ++ [x]) ++ l)) as Hnd'.
    { by rewrite <- app_assoc. }
    apply NoDup_app. split_and!.
    + apply (NoDup_fmap_2 _).
      apply NoDup_app in Hnd as (? & Hdisj & [_ ?]%NoDup_cons).
      apply NoDup_app. split_and!; [done | | done].
      intros y Hy Hy'. apply (Hdisj y Hy). by right.
    + intros [a b] (y & [= -> ->] & _)%list_elem_of_fmap.
      rewrite (elem_of_permutations2_from _ _ _ _ Hnd').
      intros (Hx & _). by apply NoDup_app in Hnd as (_ & _ & [? _]%NoDup_cons).
    + by apply IH.
Qed.

Lemma elem_of_permutations2 l a b :
  NoDup l → (a, b) ∈ permutations2 l ↔ a ∈ l ∧ b ∈ l ∧ a ≠ b.
Proof. intros. by apply (elem_of_permutations2_from []). Qed.

Lemma NoDup_permutations2 l : NoDup l → NoDup (permutations2 l).
Proof. intros. by apply (NoDup_permutations2_from []). Qed.

Lemma length_combinations2 l :
  (2 * length (combinations2 l) = length l * (length l - 1))%nat.
Proof.
  induction l as [|x l IH]; simpl; [done|].
  rewrite length_app, length_fmap. nia.
Qed.

Lemma elem_of_combinations2 l a b :
  (a, b) ∈ combinations2 l → a ∈ l ∧ b ∈ l.
Proof.
  induction l as [|x l IH]; simpl; [by intros ?%elem_of_nil|].
  rewrite elem_of_app, list_elem_of_fmap, !elem_of_cons.
  intros [(y & [= -> ->] & Hy)|?]; naive_solver.
Qed.

Lemma combinations2_distinct l a b :
  NoDup l → (a, b) ∈ combinations2 l → a ≠ b.
Proof.
  induction l as [|x l IH]; simpl; [by intros _ ?%elem_of_nil|].
  intros [Hx Hnd]%NoDup_cons.
  rewrite elem_of_app, list_elem_of_fmap.
  intros [(y & [= -> ->] & Hy)|?]; [congruence | by apply IH].
Qed.

Lemma combinations2_total l a b :
  a ∈ l → b ∈ l → a ≠ b →
  (a, b) ∈ combinations2 l ∨ (b, a) ∈ combinations2 l.
Proof.
  induction l as [|x l IH]; simpl; [by intros ?%elem_of_nil|].
  rewrite !elem_of_cons, !elem_of_app, !list_elem_of_fmap.
  intros [->|Ha] [->|Hb] Hne; [done | | |].
  - left; left. by exists b.
  - right; left. by exists a.
  - destruct (IH Ha Hb Hne); [left | right]; by right.
Qed.

Lemma combinations2_once l a b :
  NoDup l → (a, b) ∈ combinations2 l → (b, a) ∉ combinations2 l.
Proof.
  induction l as [|x l IH]; simpl; [by intros _ ?%elem_of_nil|].
  intros [Hx Hnd]%NoDup_cons.
  rewrite !elem_of_app, !list_elem_of_fmap.
  intros [(y & [= -> ->] & Hy)|Hab] [(z & [= -> ->] & Hz)|Hba].
  - done.
  - by apply elem_of_combinations2 in Hba as [_ ?].
  - by apply elem_of_combinations2 in Hab as [_ ?].
  - by apply (IH Hnd Hab).
Qed.

Lemma NoDup_combinations2 l : NoDup l → NoDup (combinations2 l).
Proof.
  induction l as [|x l IH]; simpl; [constructor|].
  intros [Hx Hnd]%NoDup_cons. apply NoDup_app. split_and!.
  - by apply (NoDup_fmap_2 _).
  - intros [a b] (y & [= -> ->] & _)%list_elem_of_fmap.
    by intros [? _]%elem_of_combinations2.
  - by apply IH.
Qed.
End pair_facts.

Lemma filter_all {A} (P : A → Prop) `{∀ x, Decision (P x)} (l : list A) :
  Forall P l → filter P l = l.
Proof.
  induction 1 as [|x l Hx _ IH]; [done|].
  by rewrite filter_cons_True, IH.
Qed.

Lemma filter_fst_pair {A} `{EqDecision A} (x k : A) (l : list A) :
  filter (λ p : A * A, p.1 = k) (pair x <$> l)
  = if decide (x = k) then pair x <$> l else [].
Proof.
  destruct (decide (x = k)) as [->|Hne].
  - apply filter_all, Forall_forall.
    by intros [a b] (y & [= -> ->] & _)%list_elem_of_fmap.
  - induction l as [|y l IH]; [done|].
    by rewrite fmap_cons, filter_cons_False.
Qed.

Lemma filter_fst_permutations2_from {A} `{EqDecision A}
    (before l : list A) (k : A) :
  NoDup (before ++ l) →
  filter (λ p : A * A, p.1 = k) (permutations2_from before l)
  = if decide (k ∈ l) then pair k <$> filter (λ y, y ≠ k) (before ++ l)
    else [].
Proof.
  revert before. induction l as [|x l IH]; intros before Hnd; simpl.
  - done.
  - assert (NoDup ((before ++ [x]) ++ l)) as Hnd' by (by rewrite <- app_assoc).
    rewrite filter_app, filter_fst_pair, (IH _ Hnd'), <- app_assoc. simpl.
    apply NoDup_app in Hnd as (_ & Hdisj & [Hx _]%NoDup_cons).
    destruct (decide (x = k)) as [->|Hne].
    + rewrite (decide_False (P:=k ∈ l)) by done.
      rewrite (decide_True (P:=k ∈ k :: l)) by (by left).
      rewrite app_nil_r, filter_app, filter_cons_False by naive_solver.
      rewrite <- filter_app, filter_all; [done|].
      apply Forall_forall. intros y [Hy|Hy]%elem_of_app ->; [|done].
      apply (Hdisj _ Hy). by left.
    + simpl. destruct (decide (k ∈ l)) as [Hk|Hk].
      * rewrite decide_True; [done | by right].
      * rewrite decide_False; [done|].
        rewrite elem_of_cons. naive_solver.
Qed.

(** ** Running the loops *)

Section loop_facts.
Context {A St : Type} (f : St → A → M St) (g : St → A → St) (tr : A → MatcherCall).

Lemma foldM_ok :
  (∀ s x w, f s x w = (Ok (g s x), logged w (tr x))) →
  ∀ l s w,
    foldM f s l w
    = (Ok (fold_left g l s),
       MkWorld (annot_df w) (matcher_calls w ++ (tr <$> l))).
Proof.
  intros Hstep l. induction l as [|x l IH]; intros s w; simpl.
  - destruct w. unfold mret, M_ret. simpl. by rewrite app_nil_r.
  - unfold mbind, M_bind. rewrite Hstep, IH. simpl.
    by rewrite <- app_assoc.
Qed.

Lemma foldM_partial (E : error → Prop) :
  (∀ s x w, ∃ r, f s x w = (r, logged w (tr x))
                 ∧ (∀ s', r = Ok s' → s' = g s x)
                 ∧ (∀ e, r = Err e → E e)) →
  ∀ l s w, ∃ r k,
    foldM f s l w
    = (r, MkWorld (annot_df w) (matcher_calls w ++ (tr <$> take k l)))
    ∧ (∀ s', r = Ok s' → s' = fold_left g l s ∧ take k l = l)
    ∧ (∀ e, r = Err e → E e).
Proof.
  intros Hstep l. induction l as [|x l IH]; intros s w; simpl.
  - exists (Ok s), 0%nat. destruct w. unfold mret, M_ret. simpl.
    rewrite app_nil_r. split_and!; [done | by intros ? [= <-] | done].
  - unfold mbind, M_bind.
    destruct (Hstep s x w) as (r & -> & Hr & He). destruct r as [s1|e].
    + rewrite (Hr s1 eq_refl).
      destruct (IH (g s x) (logged w (tr x))) as (r' & k & -> & Hr' & He').
      exists r', (S k). simpl. rewrite <- app_assoc.
      split_and!; [done | | done].
      intros s' Hs'. destruct (Hr' s' Hs') as [-> ->]. done.
    + exists (Err e), 1%nat. simpl. rewrite take_0.
      split_and!; [done | by intros ? [=] | ].
      intros e' [= <-]. by apply He.
Qed.

Lemma foldM_stop (stop : A → bool) (e : error) :
  (∀ s x w, f s x w
            = (if stop x then Err e else Ok (g s x), logged w (tr x))) →
  ∀ l s w,
    foldM f s l w
    = (if existsb stop l then Err e else Ok (fold_left g l s),
       MkWorld (annot_df w) (matcher_calls w ++ (tr <$> up_to_first stop l))).
Proof.
  intros Hstep l. induction l as [|x l IH]; intros s w; simpl.
  - destruct w. unfold mret, M_ret. simpl. by rewrite app_nil_r.
  - unfold mbind, M_bind. rewrite Hstep. destruct (stop x); simpl.
    + done.
    + rewrite IH. simpl. by rewrite <- app_assoc.
Qed.
End loop_facts.

Lemma fold_left_fmap {A B C} (g : C → B → C) (f : A → B) (l : list A) (c : C) :
  fold_left g (f <$> l) c = fold_left (λ c x, g c (f x)) l c.
Proof. revert c. induction l as [|x l IH]; intros c; simpl; [done | apply IH]. Qed.

(** ** Aggregation of comparison results *)

Section dict_append_facts.
Context {V R : Type} (g : R → V).

Lemma lookup_fold_dict_append (results : list (string * R))
    (m : gmap string (list V)) (k : string) :
  fold_left (λ m p, dict_append m p.1 (g p.2)) results m !! k
  = match filter (λ p, p.1 = k) results with
    | [] => m !! k
    | new => Some (default [] (m !! k) ++ ((λ p, g p.2) <$> new))
    end.
Proof.
  revert m. induction results as [|[w r] results IH]; intros m; [done|].
  simpl fold_left. rewrite IH. simpl.
  destruct (decide (w = k)) as [->|Hne].
  - rewrite filter_cons_True by done. unfold dict_append.
    rewrite lookup_insert_eq. simpl.
    destruct (filter _ results) as [|p new]; simpl.
    + done.
    + by rewrite <- app_assoc.
  - rewrite filter_cons_False by done. unfold dict_append.
    by rewrite lookup_insert_ne.
Qed.
End dict_append_facts.

Lemma attribute_all_spec (results : list (string * MatcherOutput)) :
  attribute_all results
  = (fold_left (λ m p, dict_append m p.1 (arg_metrics p.2)) results ∅,
     fold_left (λ m p, dict_append m p.1 (nom_ident_metrics p.2)) results ∅).
Proof.
  unfold attribute_all. generalize (∅ : gmap string (list Metrics.t)).
  generalize (∅ : gmap string (list BinaryClassificationMetrics.t)).
  induction results as [|[w r] results IH]; intros m2 m1; [done|].
  simpl. apply IH.
Qed.

Lemma filter_nil_permutation {A} (P : A → Prop) `{∀ x, Decision (P x)}
    (l l' : list A) :
  l ≡ₚ l' → filter P l = [] → filter P l' = [].
Proof.
  intros Hp Hnil. apply Permutation_nil_r. rewrite <- Hnil.
  by apply filter_Permutation.
Qed.

(** Order independence of the per-worker fold, one worker at a time. *)
Lemma lookup_sum_permutation {V R} (g : R → V) (sum : list V → V)
    (results results' : list (string * R)) (k : string) :
  (∀ l l', l ≡ₚ l' → sum l = sum l') →
  results ≡ₚ results' →
  (sum <$> fold_left (λ m p, dict_append m p.1 (g p.2)) results ∅) !! k
  = (sum <$> fold_left (λ m p, dict_append m p.1 (g p.2)) results' ∅) !! k.
Proof.
  intros Hsum Hp. rewrite !lookup_fmap, !lookup_fold_dict_append.
  rewrite lookup_empty. simpl.
  assert (filter (λ p, p.1 = k) results ≡ₚ filter (λ p, p.1 = k) results')
    as Hf by (by apply filter_Permutation).
  destruct (filter (λ p, p.1 = k) results) as [|p new] eqn:E;
    destruct (filter (λ p, p.1 = k) results') as [|p' new'] eqn:E'.
  - done.
  - by apply Permutation_nil_l in Hf.
  - by apply Permutation_nil_r in Hf.
  - simpl. f_equal. apply Hsum.
    exact (fmap_Permutation (λ p, g p.2) _ _ Hf).
Qed.

Lemma per_worker_totals_permutation results results' :
  results ≡ₚ results' → per_worker_totals results = per_worker_totals results'.
Proof.
  intros Hp. unfold per_worker_totals. rewrite !attribute_all_spec. simpl.
  f_equal; apply map_eq; intros k.
  - by apply lookup_sum_permutation; [apply metrics_sum_permutation|].
  - by apply lookup_sum_permutation; [apply binary_sum_permutation|].
Qed.

Lemma accumulate_swap tot a b :
  accumulate (accumulate tot a) b = accumulate (accumulate tot b) a.
Proof.
  unfold accumulate; simpl.
  rewrite !metrics_add_assoc, !binary_add_assoc.
  by rewrite (metrics_add_comm (arg_metrics a)),
    (metrics_add_comm (role_metrics a)),
    (binary_add_comm (nom_ident_metrics a)).
Qed.

Lemma global_totals_permutation results results' :
  results ≡ₚ results' → global_totals results = global_totals results'.
Proof.
  unfold global_totals. generalize empty_totals. intros tot Hp. revert tot.
  induction Hp as [|x l l' _ IH|x y l|l l' l'' _ IH1 _ IH2]; intros tot; simpl.
  - done.
  - apply IH.
  - by rewrite accumulate_swap.
  - by rewrite IH1.
Qed.

(** ** Totals as sums *)

Lemma metrics_fold_add_total (l : list Metrics.t) (a : Metrics.t) :
  fold_left Metrics.add l a = Metrics.add a (metrics_total l).
Proof.
  revert a. induction l as [|x l IH]; intros a.
  - destruct a. unfold Metrics.add, metrics_total. simpl. f_equal; lia.
  - simpl fold_left. rewrite IH.
    unfold Metrics.add, metrics_total, sumZ. rewrite !fmap_cons. simpl.
    f_equal; lia.
Qed.

Lemma metrics_sum_total (l : list Metrics.t) :
  Metrics.sum l = metrics_total l.
Proof.
  unfold Metrics.sum. rewrite metrics_fold_add_total.
  unfold Metrics.add, metrics_total. simpl. done.
Qed.

Lemma binary_fold_add_total (l : list BinaryClassificationMetrics.t)
    (a : BinaryClassificationMetrics.t) :
  fold_left BinaryClassificationMetrics.add l a
  = BinaryClassificationMetrics.add a (binary_total l).
Proof.
  revert a. induction l as [|x l IH]; intros a.
  - destruct a. unfold BinaryClassificationMetrics.add, binary_total. simpl.
    f_equal; lia.
  - simpl fold_left. rewrite IH.
    unfold BinaryClassificationMetrics.add, binary_total, sumZ.
    rewrite !fmap_cons. simpl. f_equal; lia.
Qed.

Lemma binary_sum_total (l : list BinaryClassificationMetrics.t) :
  BinaryClassificationMetrics.sum l = binary_total l.
Proof.
  unfold BinaryClassificationMetrics.sum. rewrite binary_fold_add_total.
  unfold BinaryClassificationMetrics.add, binary_total. simpl. done.
Qed.

Lemma global_totals_total (outs : list MatcherOutput) :
  global_totals outs
  = MkTotals (metrics_total (arg_metrics <$> outs))
      (metrics_total (role_metrics <$> outs))
      (binary_total (nom_ident_metrics <$> outs)).
Proof.
  unfold global_totals.
  assert (∀ tot,
    fold_left accumulate outs tot
    = MkTotals
        (fold_left Metrics.add (arg_metrics <$> outs) (total_arg_metric tot))
        (fold_left Metrics.add (role_metrics <$> outs) (total_role_metric tot))
        (fold_left BinaryClassificationMetrics.add (nom_ident_metrics <$> outs)
           (total_nomIdent_metric tot))) as ->.
  { induction outs as [|o outs IH]; intros tot; [by destruct tot|].
    rewrite !fmap_cons. simpl fold_left. by rewrite IH. }
  simpl. fold (Metrics.sum (arg_metrics <$> outs)).
  fold (Metrics.sum (role_metrics <$> outs)).
  fold (BinaryClassificationMetrics.sum (nom_ident_metrics <$> outs)).
  by rewrite !metrics_sum_total, binary_sum_total.
Qed.

(** ** The table after a run *)

Lemma get_worker_statistics_run w :
  statistics_ready (annot_df w) →
  get_worker_statistics w
  = (Ok (basic_statistics (keyed (annot_df w))),
     MkWorld (keyed (annot_df w)) (matcher_calls w)).
Proof.
  intros Hready.
  unfold get_worker_statistics, keyed, mbind, M_bind, get_df. simpl.
  destruct w as [df calls]. simpl in *. case_decide; [done|].
  destruct Hready as [?|Hrows]; [done|]. by rewrite decide_False.
Qed.

Lemma get_worker_statistics_fails w :
  ¬ statistics_ready (annot_df w) →
  get_worker_statistics w = (Err ValueError, w).
Proof.
  intros Hready. unfold statistics_ready in Hready.
  unfold get_worker_statistics, mbind, M_bind, get_df, lift. simpl.
  rewrite decide_False by tauto.
  rewrite decide_True; [done|].
  destruct (rows (annot_df w)); [done|]. exfalso. apply Hready. by right.
Qed.

Lemma statistics_ready_keyed df : statistics_ready (keyed df).
Proof. left. unfold keyed. case_decide as Hk; [done|]. simpl.
  unfold add_column. rewrite decide_False by done.
  apply elem_of_app. right. by left.
Qed.

Lemma statistics_ready_workers df :
  unique (worker_id <$> rows df) ≠ [] → statistics_ready df.
Proof. intros Hne. right. intros Hrows. by rewrite Hrows in Hne. Qed.

Lemma keyed_columns df : "key" ∈ columns (keyed df).
Proof.
  unfold keyed. case_decide as Hk; [done|]. simpl. unfold add_column.
  rewrite decide_False by done. apply elem_of_app. right. by left.
Qed.

Lemma keyed_idemp df : keyed (keyed df) = keyed df.
Proof.
  unfold keyed at 1. rewrite decide_True; [done | apply keyed_columns].
Qed.

Lemma keyed_worker_ids df :
  worker_id <$> rows (keyed df) = worker_id <$> rows df.
Proof.
  unfold keyed. case_decide; [done|]. simpl.
  rewrite <- list_fmap_compose. by apply list_fmap_ext.
Qed.

Lemma mapM_lift {A B} (f : A → result B) (l : list A) (w : World) :
  (mapM (M:=M) (λ x, lift (f x)) l w).2 = w.
Proof.
  induction l as [|x l IH]; simpl; [done|].
  unfold mbind, M_bind, lift. destruct (f x) as [y|e]; simpl; [|done].
  destruct (mapM (M:=M) _ l w) as [[ys|e] w'] eqn:E; simpl in *; congruence.
Qed.

Lemma mapM_lift_head_err {A B} (f : A → result B) x (l : list A) w e :
  f x = Err e → mapM (M:=M) (λ x, lift (f x)) (x :: l) w = (Err e, w).
Proof. intros Hx. simpl. unfold mbind, M_bind, lift. by rewrite Hx. Qed.

Section analysis_facts.

Variable eval_datasets :
  DataFrame → DataFrame → gmap string (list string) → option bool
  → MatcherOutput.

Lemma iaa_agreements_run df sm workers w :
  iaa_agreements eval_datasets df sm workers w
  = (Ok (attribute_all (ordered_results eval_datasets df sm workers)),
     MkWorld (annot_df w)
       (matcher_calls w ++ (call_of df sm <$> permutations2 workers))).
Proof.
  unfold iaa_agreements, attribute_all, ordered_results.
  rewrite fold_left_fmap.
  apply (foldM_ok _ (λ st p, attribute st p.1 (compare eval_datasets df sm p))
           (call_of df sm)).
  by intros st [w1 w2] w'.
Qed.

Lemma generator_totals_quiet df sm workers w :
  generator_totals eval_datasets false df sm workers w
  = (Ok (global_totals (unordered_results eval_datasets df sm workers)),
     MkWorld (annot_df w)
       (matcher_calls w ++ (call_of df sm <$> combinations2 workers))).
Proof.
  unfold generator_totals, global_totals, unordered_results.
  rewrite fold_left_fmap.
  apply (foldM_ok _ (λ tot p, accumulate tot (compare eval_datasets df sm p))
           (call_of df sm)).
  by intros st [w1 w2] w'.
Qed.

Lemma generator_totals_run verbose df sm workers w :
  ∃ r k,
    generator_totals eval_datasets verbose df sm workers w
    = (r, MkWorld (annot_df w)
            (matcher_calls w
             ++ (call_of df sm <$> take k (combinations2 workers))))
    ∧ (∀ tot, r = Ok tot →
         tot = global_totals (unordered_results eval_datasets df sm workers)
         ∧ take k (combinations2 workers) = combinations2 workers)
    ∧ (∀ e, r = Err e → e = DivisionUndefined).
Proof.
  unfold generator_totals, global_totals, unordered_results.
  rewrite fold_left_fmap.
  apply (foldM_partial _ (λ tot p, accumulate tot (compare eval_datasets df sm p))
           (call_of df sm) (λ e, e = DivisionUndefined)).
  intros st [w1 w2] w'. unfold mbind, M_bind, call_eval_datasets. simpl.
  destruct verbose; simpl.
  - unfold lift, compare. simpl.
    destruct (BinaryClassificationMetrics.accuracy _) as [q|e] eqn:Hacc;
      simpl.
    + eexists. split_and!; [done | by intros ? [= <-] | done].
    + eexists. split_and!; [done | done |]. intros e' [= <-].
      by apply binary_accuracy_error in Hacc.
  - eexists. split_and!; [done | by intros ? [= <-] | done].
Qed.

(** The verbose loop asks for the accuracy of every pair it compares, and
    stops on the first one that has none. *)
Lemma generator_totals_verbose df sm workers w :
  let pairs := combinations2 workers in
  let stop := λ p, no_instances (compare eval_datasets df sm p) in
  generator_totals eval_datasets true df sm workers w
  = (if existsb stop pairs then Err DivisionUndefined
     else Ok (global_totals (unordered_results eval_datasets df sm workers)),
     MkWorld (annot_df w)
       (matcher_calls w ++ (call_of df sm <$> up_to_first stop pairs))).
Proof.
  intros pairs stop.
  unfold generator_totals, global_totals, unordered_results. fold pairs.
  rewrite fold_left_fmap.
  apply (foldM_stop _
           (λ tot p, accumulate tot (compare eval_datasets df sm p))
           (call_of df sm) stop DivisionUndefined).
  intros tot [w1 w2] w'.
  unfold call_eval_datasets, log_call, mbind, M_bind, mret, M_ret, lift.
  cbn beta iota.
  change (eval_datasets (select_worker df w1) (select_worker df w2) sm
            (Some false)) with (compare eval_datasets df sm (w1, w2)).
  unfold stop, no_instances, BinaryClassificationMetrics.accuracy.
  by destruct (BinaryClassificationMetrics.instances _ =? 0).
Qed.

Lemma get_sent_map_total df : ∃ sm, get_sent_map df = Ok sm.
Proof. by eexists. Qed.

(** [evaluate_per_worker_iaa], step by step. *)
Lemma evaluate_per_worker_iaa_run isPrinting w sm :
  get_sent_map (annot_df w) = Ok sm →
  statistics_ready (annot_df w) →
  let df := annot_df w in
  let workers := unique (worker_id <$> rows df) in
  let totals := per_worker_totals (ordered_results eval_datasets df sm workers) in
  let w' := MkWorld (keyed df)
              (matcher_calls w ++ (call_of df sm <$> permutations2 workers)) in
  evaluate_per_worker_iaa eval_datasets isPrinting w
  = mapM (M:=M) (λ '(worker_id, statistics),
        lift (worker_row isPrinting totals.1 totals.2 worker_id statistics))
      (basic_statistics (keyed df)) w'.
Proof.
  intros Hsm Hready. simpl. unfold evaluate_per_worker_iaa.
  unfold mbind at 1. unfold M_bind at 1. unfold get_df at 1.
  unfold mbind at 1. unfold M_bind at 1. unfold lift at 1. rewrite Hsm.
  unfold mbind at 1. unfold M_bind at 1. rewrite iaa_agreements_run.
  unfold per_worker_totals.
  generalize (attribute_all (ordered_results eval_datasets (annot_df w) sm
                (unique (worker_id <$> rows (annot_df w))))).
  intros [args noms].
  unfold mbind at 1. unfold M_bind at 1.
  by rewrite get_worker_statistics_run.
Qed.

(** On a table without rows and without a [key] column the run stops in
    [get_worker_statistics]. *)
Lemma evaluate_per_worker_iaa_fails isPrinting w :
  ¬ statistics_ready (annot_df w) →
  evaluate_per_worker_iaa eval_datasets isPrinting w = (Err ValueError, w).
Proof.
  intros Hready. destruct (get_sent_map_total (annot_df w)) as [sm Hsm].
  assert (rows (annot_df w) = []) as Hrows.
  { destruct (rows (annot_df w)) eqn:E; [done|].
    exfalso. apply Hready. right. by rewrite E. }
  unfold evaluate_per_worker_iaa.
  unfold mbind at 1. unfold M_bind at 1. unfold get_df at 1.
  unfold mbind at 1. unfold M_bind at 1. unfold lift at 1. rewrite Hsm.
  unfold mbind at 1. unfold M_bind at 1. rewrite iaa_agreements_run.
  rewrite Hrows.
  change (unique (worker_id <$> [])) with (@nil string).
  change (permutations2 (@nil string)) with (@nil (string * string)).
  rewrite fmap_nil, app_nil_r.
  generalize (attribute_all (ordered_results eval_datasets (annot_df w) sm [])).
  intros [args noms].
  unfold mbind at 1. unfold M_bind at 1.
  rewrite get_worker_statistics_fails by done. by destruct w.
Qed.

End analysis_facts.

Lemma filter_fst_attributed {A B} `{EqDecision A} (h : A * A → B)
    (l : list (A * A)) (k : A) :
  filter (λ q : A * B, q.1 = k) ((λ p, (p.1, h p)) <$> l)
  = (λ p, (p.1, h p)) <$> filter (λ p : A * A, p.1 = k) l.
Proof.
  induction l as [|p l IH]; [done|]. rewrite fmap_cons.
  destruct (decide (p.1 = k)) as [Hk|Hk].
  - by rewrite !filter_cons_True, fmap_cons, IH.
  - by rewrite !filter_cons_False, IH.
Qed.

Lemma mapM_frame {A B} (f : A → M B) (l : list A) (w : World) :
  (∀ x w, (f x w).2 = w) → (mapM f l w).2 = w.
Proof.
  intros Hf. induction l as [|x l IH]; simpl; [done|].
  unfold mbind, M_bind. specialize (Hf x w).
  destruct (f x w) as [[y|e] w1]; simpl in *; subst w1; [|done].
  destruct (mapM f l w) as [[ys|e] w'] eqn:E; simpl in *; congruence.
Qed.

Lemma sample_sent_map_ok : get_sent_map sample_table = Ok sample_sent_map.
Proof. by vm_compute. Qed.

(** ** Order independence of the aggregation *)

(** C1. The aggregation is an order-independent fold: whatever table is
    evaluated, computing the per-worker totals or the global totals from any
    permutation of the sequence of pairwise comparison results gives the
    totals the two evaluation loops compute, and, on a table that has a
    [key] column or at least one row, the whole per-worker evaluation is the
    one obtained from the permuted sequence. *)
Theorem aggregation_order_independent
    (eval_datasets : DataFrame → DataFrame → gmap string (list string)
                     → option bool → MatcherOutput)
    (isPrinting : bool) (w : World) (sm : gmap string (list string))
    (results' : list (string * MatcherOutput))
    (results'' : list MatcherOutput) :
  let df := annot_df w in
  let workers := unique (worker_id <$> rows df) in
  get_sent_map df = Ok sm →
  results' ≡ₚ ordered_results eval_datasets df sm workers →
  results'' ≡ₚ unordered_results eval_datasets df sm workers →
  (∃ st w', iaa_agreements eval_datasets df sm workers w = (Ok st, w')
     ∧ (Metrics.sum <$> st.1, BinaryClassificationMetrics.sum <$> st.2)
       = per_worker_totals results')
  ∧ ("key" ∈ columns df ∨ rows df ≠ [] →
     evaluate_per_worker_iaa eval_datasets isPrinting w
     = mapM (M:=M) (λ '(worker_id, statistics),
           lift (worker_row isPrinting (per_worker_totals results').1
                   (per_worker_totals results').2 worker_id statistics))
         (basic_statistics (keyed df))
         (MkWorld (keyed df)
            (matcher_calls w
             ++ (call_of df sm <$> permutations2 workers))))
  ∧ (∃ w', generator_totals eval_datasets false df sm workers w
           = (Ok (global_totals results''), w'))
  ∧ (∀ tot w', generator_totals eval_datasets true df sm workers w
               = (Ok tot, w') → tot = global_totals results'').
Proof.
  intros df workers Hsm Hp Hp'. split_and!.
  - eexists _, _. split; [apply iaa_agreements_run|].
    symmetry. by apply per_worker_totals_permutation.
  - intros Hready. rewrite (evaluate_per_worker_iaa_run _ _ _ sm Hsm Hready).
    by rewrite (per_worker_totals_permutation _ _ Hp).
  - eexists. rewrite generator_totals_quiet.
    by rewrite (global_totals_permutation _ _ Hp').
  - intros tot w' Hrun.
    destruct (generator_totals_run eval_datasets true df sm workers w)
      as (r & k & Hr & Hok & _).
    rewrite Hrun in Hr. injection Hr as <- _.
    destruct (Hok tot eq_refl) as [-> _].
    symmetry. by apply global_totals_permutation.
Qed.

Lemma aggregation_order_independent_witness :
  per_worker_totals
    (reverse (ordered_results sample_matcher sample_table sample_sent_map
                ["A"; "B"; "C"]))
  = per_worker_totals
      (ordered_results sample_matcher sample_table sample_sent_map
         ["A"; "B"; "C"])
  ∧ ∃ w', generator_totals sample_matcher false sample_table sample_sent_map
            ["A"; "B"; "C"] sample_world
          = (Ok (global_totals
                   (reverse (unordered_results sample_matcher sample_table
                               sample_sent_map ["A"; "B"; "C"]))), w').
Proof.
  destruct (aggregation_order_independent sample_matcher true sample_world
              sample_sent_map
              (reverse (ordered_results sample_matcher sample_table
                          sample_sent_map ["A"; "B"; "C"]))
              (reverse (unordered_results sample_matcher sample_table
                          sample_sent_map ["A"; "B"; "C"])))
    as ((st & w' & Hrun & Htot) & _ & Hgen & _).
  - apply sample_sent_map_ok.
  - apply reverse_Permutation.
  - apply reverse_Permutation.
  - split; [|exact Hgen].
    rewrite <- Htot.
    change (unique (worker_id <$> rows (annot_df sample_world)))
      with ["A"; "B"; "C"] in Hrun.
    rewrite iaa_agreements_run in Hrun. injection Hrun as <- _. done.
Defined.

(** ** Pair enumeration and matcher calls *)

Section run_facts.

Variable eval_datasets :
  DataFrame → DataFrame → gmap string (list string) → option bool
  → MatcherOutput.

Lemma evaluate_per_worker_iaa_world isPrinting w sm :
  get_sent_map (annot_df w) = Ok sm →
  (evaluate_per_worker_iaa eval_datasets isPrinting w).2
  = MkWorld (if decide (statistics_ready (annot_df w))
             then keyed (annot_df w) else annot_df w)
      (matcher_calls w
       ++ (call_of (annot_df w) sm
           <$> permutations2 (unique (worker_id <$> rows (annot_df w))))).
Proof.
  intros Hsm. case_decide as Hready.
  - rewrite (evaluate_per_worker_iaa_run _ _ _ sm Hsm Hready).
    apply mapM_frame. by intros [k s] w'.
  - rewrite evaluate_per_worker_iaa_fails by done.
    assert (rows (annot_df w) = []) as ->.
    { destruct (rows (annot_df w)) eqn:E; [done|].
      exfalso. apply Hready. right. by rewrite E. }
    destruct w. simpl. by rewrite app_nil_r.
Qed.

Lemma evaluate_per_worker_iaa_ok_ready isPrinting w :
  is_ok (evaluate_per_worker_iaa eval_datasets isPrinting w).1 = true →
  statistics_ready (annot_df w).
Proof.
  intros Hok. destruct (decide (statistics_ready (annot_df w))); [done|].
  by rewrite evaluate_per_worker_iaa_fails in Hok.
Qed.

Lemma evaluate_generator_agreement_run verbose w sm :
  get_sent_map (annot_df w) = Ok sm →
  evaluate_generator_agreement eval_datasets verbose w
  = let df := annot_df w in
    let run := generator_totals eval_datasets verbose df sm
                 (unique (worker_id <$> rows df)) w in
    match run.1 with
    | Ok tot =>
        match BinaryClassificationMetrics.accuracy (total_nomIdent_metric tot)
        with
        | Ok acc =>
            (Ok (MkReport (Metrics.f1 (total_arg_metric tot))
                   (Metrics.f1 (total_role_metric tot)) acc
                   (BinaryClassificationMetrics.instances
                      (total_nomIdent_metric tot))), run.2)
        | Err e => (Err e, run.2)
        end
    | Err e => (Err e, run.2)
    end.
Proof.
  intros Hsm. unfold evaluate_generator_agreement.
  unfold mbind at 1. unfold M_bind at 1. unfold get_df at 1.
  unfold mbind at 1. unfold M_bind at 1. unfold lift at 1. rewrite Hsm.
  unfold mbind at 1. unfold M_bind at 1. simpl.
  destruct (generator_totals _ _ _ _ _ _) as [[tot|e] w1]; simpl; [|done].
  unfold mbind, M_bind, lift.
  by destruct (BinaryClassificationMetrics.accuracy _).
Qed.

Lemma evaluate_generator_agreement_world verbose w sm :
  get_sent_map (annot_df w) = Ok sm →
  ∃ k,
    (evaluate_generator_agreement eval_datasets verbose w).2
    = MkWorld (annot_df w)
        (matcher_calls w
         ++ (call_of (annot_df w) sm
             <$> take k (combinations2
                           (unique (worker_id <$> rows (annot_df w))))))
    ∧ (verbose = false
       ∨ is_ok (generator_totals eval_datasets verbose (annot_df w) sm
                  (unique (worker_id <$> rows (annot_df w))) w).1 = true
       → take k (combinations2 (unique (worker_id <$> rows (annot_df w))))
         = combinations2 (unique (worker_id <$> rows (annot_df w)))).
Proof.
  intros Hsm. rewrite (evaluate_generator_agreement_run _ _ sm Hsm). simpl.
  destruct (generator_totals_run eval_datasets verbose (annot_df w) sm
              (unique (worker_id <$> rows (annot_df w))) w)
    as (r & k & Hrun & Hok & _).
  rewrite Hrun. simpl. exists k. split.
  - destruct r as [tot|e]; [|done].
    by destruct (BinaryClassificationMetrics.accuracy _).
  - intros [->|Hres].
    + rewrite generator_totals_quiet in Hrun. injection Hrun as <- Hcalls.
      by destruct (Hok _ eq_refl).
    + destruct r as [tot|e]; [by destruct (Hok _ eq_refl)|done].
Qed.

End run_facts.

(** C2. Ordered pairing.  On a table with [n] distinct worker ids,
    [evaluate_per_worker_iaa] calls the matcher once for every pair of the
    ordered enumeration, which holds every ordered pair of distinct workers
    exactly once and so has [n * (n - 1)] entries; the argument metrics and
    the is-verbal metrics of the comparison of [(w1, w2)] are appended to
    the lists of [w1], which therefore hold the comparisons of [w1] with
    every other worker, and no list is kept for anyone else. *)
Theorem ordered_pairing
    (eval_datasets : DataFrame → DataFrame → gmap string (list string)
                     → option bool → MatcherOutput)
    (isPrinting : bool) (w : World) :
  let df := annot_df w in
  let workers := unique (worker_id <$> rows df) in
  let n := size (list_to_set (worker_id <$> rows df) : gset string) in
  ∃ sm args noms w',
    get_sent_map df = Ok sm
    ∧ matcher_calls (evaluate_per_worker_iaa eval_datasets isPrinting w).2
      = matcher_calls w ++ (call_of df sm <$> permutations2 workers)
    ∧ length (permutations2 workers) = (n * (n - 1))%nat
    ∧ NoDup (permutations2 workers)
    ∧ (∀ w1 w2, (w1, w2) ∈ permutations2 workers
                ↔ w1 ∈ worker_id <$> rows df ∧ w2 ∈ worker_id <$> rows df
                  ∧ w1 ≠ w2)
    ∧ iaa_agreements eval_datasets df sm workers w = (Ok (args, noms), w')
    ∧ (∀ w1, w1 ∈ workers →
         args !! w1
         = match filter (λ w2, w2 ≠ w1) workers with
           | [] => None
           | others =>
               Some ((λ w2, arg_metrics (compare eval_datasets df sm (w1, w2)))
                     <$> others)
           end
         ∧ noms !! w1
           = match filter (λ w2, w2 ≠ w1) workers with
             | [] => None
             | others =>
                 Some ((λ w2, nom_ident_metrics
                                (compare eval_datasets df sm (w1, w2)))
                       <$> others)
             end)
    ∧ (∀ w1, w1 ∉ workers → args !! w1 = None ∧ noms !! w1 = None).
Proof.
  intros df workers n.
  destruct (get_sent_map_total df) as [sm Hsm].
  assert (NoDup workers) as Hnd by apply NoDup_unique.
  assert (∀ k,
    filter (λ q : string * MatcherOutput, q.1 = k)
      (ordered_results eval_datasets df sm workers)
    = (λ p, (p.1, compare eval_datasets df sm p))
      <$> (if decide (k ∈ workers)
           then pair k <$> filter (λ y, y ≠ k) workers else [])) as Hfilter.
  { intros k. unfold ordered_results. rewrite filter_fst_attributed.
    f_equal. unfold permutations2.
    by rewrite (filter_fst_permutations2_from [] workers k Hnd). }
  exists sm, (attribute_all (ordered_results eval_datasets df sm workers)).1,
    (attribute_all (ordered_results eval_datasets df sm workers)).2.
  eexists. split_and!.
  - done.
  - by rewrite (evaluate_per_worker_iaa_world _ _ _ sm Hsm).
  - rewrite length_permutations2. unfold workers, n.
    by rewrite length_unique.
  - by apply NoDup_permutations2.
  - intros w1 w2. rewrite (elem_of_permutations2 _ _ _ Hnd).
    unfold workers. by rewrite !elem_of_unique.
  - rewrite iaa_agreements_run. by rewrite <- surjective_pairing.
  - intros w1 Hw1. rewrite attribute_all_spec. simpl.
    rewrite !lookup_fold_dict_append, Hfilter, lookup_empty.
    rewrite decide_True by done.
    destruct (filter (λ y, y ≠ w1) workers) as [|w2 others]; [done|].
    rewrite !fmap_cons. simpl. rewrite <- !list_fmap_compose. done.
  - intros w1 Hw1. rewrite attribute_all_spec. simpl.
    rewrite !lookup_fold_dict_append, Hfilter, lookup_empty.
    by rewrite decide_False by done.
Qed.

Lemma ordered_pairing_witness :
  ∃ args,
    (iaa_agreements sample_matcher sample_table sample_sent_map
       ["A"; "B"; "C"] sample_world).1
    = Ok args
    ∧ args.1 !! "B"
      = Some [Metrics.Mk 2 1 0; Metrics.Mk 2 1 0]
    ∧ length (matcher_calls
                (evaluate_per_worker_iaa sample_matcher true sample_world).2)
      = 6%nat.
Proof.
  destruct (ordered_pairing sample_matcher true sample_world)
    as (sm & args & noms & w' & Hsm & Hcalls & Hlen & _ & _ & Hrun & Hin & _).
  change (get_sent_map sample_table = Ok sm) in Hsm.
  rewrite sample_sent_map_ok in Hsm. injection Hsm as <-.
  exists (args, noms). split_and!.
  - change (unique (worker_id <$> rows (annot_df sample_world)))
      with ["A"; "B"; "C"] in Hrun.
    change (annot_df sample_world) with sample_table in Hrun.
    by rewrite Hrun.
  - change ((args, noms).1) with args.
    destruct (Hin "B") as [-> _]; [|by vm_compute].
    apply elem_of_unique. apply list_elem_of_In. vm_compute. tauto.
  - rewrite Hcalls. by vm_compute.
Defined.

Lemma describe_worker_work_world
    (eval_datasets : DataFrame → DataFrame → gmap string (list string)
                     → option bool → MatcherOutput) (w : World) :
  (describe_worker_work eval_datasets w).2
  = (evaluate_per_worker_iaa eval_datasets false w).2.
Proof.
  destruct (get_sent_map_total (annot_df w)) as [sm Hsm].
  pose proof (evaluate_per_worker_iaa_world eval_datasets false w sm Hsm)
    as Hworld.
  unfold describe_worker_work.
  unfold mbind at 1. unfold M_bind at 1. unfold get_df at 1.
  unfold mbind at 1. unfold M_bind at 1. unfold lift at 1. rewrite Hsm.
  unfold mbind at 1. unfold M_bind at 1.
  destruct (decide (statistics_ready (annot_df w))) as [Hready|Hready];
    [|by rewrite evaluate_per_worker_iaa_fails by done].
  destruct (evaluate_per_worker_iaa eval_datasets false w)
    as [[stats|e] w1]; simpl in *; [|done].
  unfold mbind at 1. unfold M_bind at 1.
  rewrite get_worker_statistics_run
    by (subst w1; apply statistics_ready_keyed).
  rewrite mapM_frame.
  - subst w1. simpl. by rewrite keyed_idemp.
  - intros worker w2. unfold mbind, M_bind, get_df, lift.
    repeat case_match; simplify_eq/=; done.
Qed.

(** C3, as stated, fails: [sample_table] has three workers, hence three
    unordered pairs, and the verbose run with a matcher that finds no
    shared predicate calls the matcher once, then fails on the accuracy it
    is about to print. *)
Lemma verbose_run_stops_early :
  size (list_to_set (worker_id <$> rows sample_table) : gset string) = 3%nat
  ∧ length (combinations2 (unique (worker_id <$> rows sample_table))) = 3%nat
  ∧ (evaluate_generator_agreement zero_matcher true sample_world).1
    = Err DivisionUndefined
  ∧ length (matcher_calls
              (evaluate_generator_agreement zero_matcher true sample_world).2)
    = 1%nat.
Proof.
  split_and!.
  - rewrite <- length_unique. by vm_compute.
  - by vm_compute.
  - by vm_compute.
  - by vm_compute.
Qed.

(** C3, amended.  Unordered pairing.  On a table with [n] distinct worker
    ids, the enumeration of [evaluate_generator_agreement] holds every
    unordered pair of distinct workers exactly once, in one direction only,
    so it has [n * (n - 1) / 2] entries.  A run that is not verbose calls
    the matcher once for each of them, in that order.  A verbose run does
    so up to and including the first pair whose is-verbal metrics hold no
    instance, where the accuracy it prints is undefined and the run fails.
    When the loop completes, each of the three totals (argument, role,
    is-verbal) is the componentwise sum of the values of all the pairs, with
    no worker attached. *)
Theorem unordered_pairing
    (eval_datasets : DataFrame → DataFrame → gmap string (list string)
                     → option bool → MatcherOutput)
    (verbose : bool) (w : World) :
  let df := annot_df w in
  let workers := unique (worker_id <$> rows df) in
  let n := size (list_to_set (worker_id <$> rows df) : gset string) in
  let pairs := combinations2 workers in
  let run := evaluate_generator_agreement eval_datasets verbose w in
  ∃ sm,
    let outs := compare eval_datasets df sm <$> pairs in
    let stop := λ p, no_instances (compare eval_datasets df sm p) in
    get_sent_map df = Ok sm
    ∧ length pairs = (n * (n - 1) / 2)%nat
    ∧ NoDup pairs
    ∧ (∀ w1 w2, (w1, w2) ∈ pairs →
         w1 ∈ worker_id <$> rows df ∧ w2 ∈ worker_id <$> rows df ∧ w1 ≠ w2)
    ∧ (∀ w1 w2, w1 ∈ worker_id <$> rows df → w2 ∈ worker_id <$> rows df →
         w1 ≠ w2 →
         ((w1, w2) ∈ pairs ∧ (w2, w1) ∉ pairs)
         ∨ ((w2, w1) ∈ pairs ∧ (w1, w2) ∉ pairs))
    ∧ matcher_calls run.2
      = matcher_calls w
        ++ (call_of df sm
            <$> (if verbose then up_to_first stop pairs else pairs))
    ∧ annot_df run.2 = df
    ∧ generator_totals eval_datasets verbose df sm workers w
      = (if verbose && existsb stop pairs then Err DivisionUndefined
         else Ok (MkTotals (metrics_total (arg_metrics <$> outs))
                    (metrics_total (role_metrics <$> outs))
                    (binary_total (nom_ident_metrics <$> outs))),
         run.2).
Proof.
  intros df workers n pairs run.
  destruct (get_sent_map_total df) as [sm Hsm].
  assert (NoDup workers) as Hnd by apply NoDup_unique.
  assert (∀ x, x ∈ workers ↔ x ∈ worker_id <$> rows df) as Hin.
  { intros x. apply elem_of_unique. }
  assert (run.2 = (generator_totals eval_datasets verbose df sm workers w).2)
    as Hworld.
  { unfold run. rewrite (evaluate_generator_agreement_run _ _ _ sm Hsm).
    cbv zeta. fold df. fold workers.
    destruct (generator_totals _ _ _ _ _ _).1 as [tot|e]; [|done].
    by destruct (BinaryClassificationMetrics.accuracy _). }
  assert (generator_totals eval_datasets verbose df sm workers w
          = (if verbose
                && existsb (λ p, no_instances (compare eval_datasets df sm p))
                     pairs
             then Err DivisionUndefined
             else Ok (global_totals
                        (unordered_results eval_datasets df sm workers)),
             MkWorld df
               (matcher_calls w
                ++ (call_of df sm
                    <$> (if verbose
                         then up_to_first
                                (λ p, no_instances
                                        (compare eval_datasets df sm p)) pairs
                         else pairs))))) as Hloop.
  { destruct verbose.
    - apply generator_totals_verbose.
    - apply generator_totals_quiet. }
  exists sm. cbv zeta. split_and!.
  - done.
  - pose proof (length_combinations2 workers) as Hlen.
    unfold n. rewrite <- length_unique. fold workers. unfold pairs.
    rewrite <- Hlen. by rewrite Nat.mul_comm, Nat.div_mul.
  - by apply NoDup_combinations2.
  - intros w1 w2 Hp. rewrite <- !Hin.
    pose proof (elem_of_combinations2 _ _ _ Hp) as [? ?].
    split_and!; [done | done | by eapply combinations2_distinct].
  - intros w1 w2 H1%Hin H2%Hin Hne.
    destruct (combinations2_total workers w1 w2 H1 H2 Hne) as [Hp|Hp].
    + left. split; [done | by apply combinations2_once].
    + right. split; [done | by apply combinations2_once].
  - by rewrite Hworld, Hloop.
  - by rewrite Hworld, Hloop.
  - rewrite Hworld, Hloop. cbn [snd]. f_equal.
    by rewrite global_totals_total.
Qed.

Lemma unordered_pairing_witness :
  length (matcher_calls
            (evaluate_generator_agreement sample_matcher true sample_world).2)
  = 3%nat
  ∧ ("A", "B") ∈ combinations2 ["A"; "B"; "C"]
  ∧ ("B", "A") ∉ combinations2 ["A"; "B"; "C"].
Proof.
  destruct (unordered_pairing sample_matcher true sample_world)
    as (sm & Hsm & _ & _ & _ & Hpair & Hcalls & _).
  change (get_sent_map sample_table = Ok sm) in Hsm.
  rewrite sample_sent_map_ok in Hsm. injection Hsm as <-.
  split.
  - rewrite Hcalls. by vm_compute.
  - destruct (Hpair "A" "B") as [Hab|[Hba Hab]].
    + apply list_elem_of_In. vm_compute. tauto.
    + apply list_elem_of_In. vm_compute. tauto.
    + done.
    + exact Hab.
    + exfalso. apply Hab. apply list_elem_of_In. vm_compute. tauto.
Defined.

(** C7. Every call of the matcher made by a run of
    [evaluate_per_worker_iaa], of [evaluate_generator_agreement] or of
    [describe_worker_work] passes [allow_overlaps] explicitly, as [False]. *)
Theorem allow_overlaps_always_false
    (eval_datasets : DataFrame → DataFrame → gmap string (list string)
                     → option bool → MatcherOutput)
    (isPrinting verbose : bool) (w : World) :
  (∃ new,
     matcher_calls (evaluate_per_worker_iaa eval_datasets isPrinting w).2
     = matcher_calls w ++ new
     ∧ Forall (λ c, call_allow_overlaps c = Some false) new)
  ∧ (∃ new,
       matcher_calls (evaluate_generator_agreement eval_datasets verbose w).2
       = matcher_calls w ++ new
       ∧ Forall (λ c, call_allow_overlaps c = Some false) new)
  ∧ (∃ new,
       matcher_calls (describe_worker_work eval_datasets w).2
       = matcher_calls w ++ new
       ∧ Forall (λ c, call_allow_overlaps c = Some false) new).
Proof.
  destruct (get_sent_map_total (annot_df w)) as [sm Hsm].
  assert (∀ pairs, Forall (λ c, call_allow_overlaps c = Some false)
                     (call_of (annot_df w) sm <$> pairs)) as Hcalls.
  { intros pairs. apply Forall_fmap, Forall_forall. by intros p _. }
  split_and!.
  - eexists. rewrite (evaluate_per_worker_iaa_world _ _ _ sm Hsm).
    split; [done | apply Hcalls].
  - destruct (evaluate_generator_agreement_world eval_datasets verbose w sm Hsm)
      as (k & -> & _).
    eexists. split; [done | apply Hcalls].
  - eexists. rewrite describe_worker_work_world.
    rewrite (evaluate_per_worker_iaa_world _ _ _ sm Hsm).
    split; [done | apply Hcalls].
Qed.

(** ** Failures of the statistics loop *)

Lemma mapM_head_err {A B} (f : A → M B) x (l : list A) w e :
  f x w = (Err e, w) → mapM f (x :: l) w = (Err e, w).
Proof. intros Hx. simpl. unfold mbind, M_bind. by rewrite Hx. Qed.

Lemma sort_strings_singleton x : sort_strings [x] = [x].
Proof. reflexivity. Qed.

Lemma sort_strings_head l :
  l ≠ [] → ∃ x rest, sort_strings l = x :: rest ∧ x ∈ l.
Proof.
  intros Hne. pose proof (merge_sort_Permutation String.le l) as Hp.
  fold (sort_strings l) in Hp.
  destruct (sort_strings l) as [|x rest].
  - by apply Permutation_nil_l in Hp.
  - exists x, rest. split; [done|]. rewrite <- Hp. by left.
Qed.

Lemma another_element {A} `{EqDecision A} (l : list A) (x : A) :
  NoDup l → (2 ≤ length l)%nat → ∃ y, y ∈ l ∧ y ≠ x.
Proof.
  intros Hnd Hlen. destruct l as [|a [|b l]]; simpl in Hlen; [lia | lia |].
  apply NoDup_cons in Hnd as [Ha _].
  destruct (decide (a = x)) as [->|Hne].
  - exists b. split; [by right; left|].
    intros ->. apply Ha. by left.
  - exists a. split; [by left | done].
Qed.

Lemma attributed_lookup
    (eval_datasets : DataFrame → DataFrame → gmap string (list string)
                     → option bool → MatcherOutput)
    df sm (workers : list string) (w1 : string) :
  NoDup workers → w1 ∈ workers →
  let lists := attribute_all (ordered_results eval_datasets df sm workers) in
  let others := filter (λ w2, w2 ≠ w1) workers in
  lists.1 !! w1
  = match others with
    | [] => None
    | _ => Some ((λ w2, arg_metrics (compare eval_datasets df sm (w1, w2)))
                 <$> others)
    end
  ∧ lists.2 !! w1
    = match others with
      | [] => None
      | _ => Some ((λ w2, nom_ident_metrics
                            (compare eval_datasets df sm (w1, w2)))
                   <$> others)
      end.
Proof.
  intros Hnd Hw1. simpl. rewrite attribute_all_spec. simpl.
  rewrite !lookup_fold_dict_append, lookup_empty.
  unfold ordered_results. rewrite filter_fst_attributed. unfold permutations2.
  rewrite (filter_fst_permutations2_from [] workers w1 Hnd).
  rewrite decide_True by done. simpl.
  destruct (filter (λ y, y ≠ w1) workers) as [|w2 others]; [done|].
  rewrite !fmap_cons. simpl. by rewrite <- !list_fmap_compose.
Qed.

(** C9. On a non-empty table whose rows all carry the same worker id, the
    pair loop of [evaluate_per_worker_iaa] has nothing to enumerate: the
    matcher is never called, the per-worker dictionaries stay empty, and
    the statistics loop fails with a [KeyError] for that worker. *)
Theorem lone_worker_key_error
    (eval_datasets : DataFrame → DataFrame → gmap string (list string)
                     → option bool → MatcherOutput)
    (isPrinting : bool) (w : World) (worker : string) :
  rows (annot_df w) ≠ [] →
  Forall (λ r, worker_id r = worker) (rows (annot_df w)) →
  let df := annot_df w in
  let workers := unique (worker_id <$> rows df) in
  permutations2 workers = []
  ∧ (∀ sm, iaa_agreements eval_datasets df sm workers w = (Ok (∅, ∅), w))
  ∧ evaluate_per_worker_iaa eval_datasets isPrinting w
    = (Err (KeyError worker), MkWorld (keyed df) (matcher_calls w)).
Proof.
  intros Hne Hall df workers.
  assert (workers = [worker]) as Hworkers.
  { apply unique_constant.
    - intros Hnil. by apply fmap_nil_inv in Hnil.
    - by apply Forall_fmap. }
  split_and!.
  - by rewrite Hworkers.
  - intros sm. rewrite iaa_agreements_run, Hworkers. simpl.
    destruct w. simpl. by rewrite app_nil_r.
  - destruct (get_sent_map_total df) as [sm Hsm].
    rewrite (evaluate_per_worker_iaa_run _ _ _ sm Hsm (or_intror Hne)).
    fold df. fold workers. rewrite Hworkers.
    unfold basic_statistics. rewrite keyed_worker_ids. fold df.
    fold workers. rewrite Hworkers, sort_strings_singleton.
    change (permutations2 [worker]) with (@nil (string * string)).
    rewrite fmap_nil, app_nil_r, fmap_cons.
    apply mapM_head_err. unfold lift. f_equal.
    unfold worker_row, per_worker_totals, ordered_results.
    change (permutations2 [worker]) with (@nil (string * string)).
    simpl. rewrite !fmap_empty.
    unfold dict_get. rewrite lookup_empty. by destruct isPrinting.
Qed.

Lemma lone_worker_key_error_witness :
  (evaluate_per_worker_iaa sample_matcher true (MkWorld lone_table [])).1
  = Err (KeyError "A").
Proof.
  destruct (lone_worker_key_error sample_matcher true (MkWorld lone_table [])
              "A") as (_ & _ & ->).
  - by vm_compute.
  - vm_compute. repeat constructor.
  - reflexivity.
Defined.

(** ** Division by zero *)

Lemma instances_global_totals (outs : list MatcherOutput) :
  Forall (λ o, BinaryClassificationMetrics.instances (nom_ident_metrics o) = 0)
    outs →
  BinaryClassificationMetrics.instances
    (total_nomIdent_metric (global_totals outs)) = 0.
Proof.
  unfold global_totals.
  assert (BinaryClassificationMetrics.instances
            (total_nomIdent_metric empty_totals) = 0) as Hinit by done.
  revert Hinit. generalize empty_totals. intros tot Htot Hzero. revert tot Htot.
  induction Hzero as [|o outs Ho _ IH]; intros tot Htot; simpl; [done|].
  apply IH. simpl. rewrite binary_instances_add. lia.
Qed.

(** C5. The two metric classes treat a zero denominator differently:
    [accuracy] of a [BinaryClassificationMetrics] with no instances, the
    empty one in particular, signals [DivisionUndefined], while precision,
    recall and F1 of a [Metrics] are [0] there.  So when no instance was
    compared, [evaluate_generator_agreement] fails with that condition, and
    so does [evaluate_per_worker_iaa] on two workers or more, instead of
    reporting an accuracy of [0]. *)
Theorem division_by_zero_policy
    (eval_datasets : DataFrame → DataFrame → gmap string (list string)
                     → option bool → MatcherOutput)
    (isPrinting verbose : bool) (w : World) (sm : gmap string (list string)) :
  let df := annot_df w in
  let workers := unique (worker_id <$> rows df) in
  let no_instances := λ p,
    BinaryClassificationMetrics.instances
      (nom_ident_metrics (compare eval_datasets df sm p)) = 0 in
  BinaryClassificationMetrics.accuracy BinaryClassificationMetrics.empty
  = Err DivisionUndefined
  ∧ (∀ m, BinaryClassificationMetrics.instances m = 0 →
          BinaryClassificationMetrics.accuracy m = Err DivisionUndefined)
  ∧ Metrics.f1 Metrics.empty = 0%Q
  ∧ (∀ m, Metrics.true_positive m + Metrics.false_positive m = 0 →
          Metrics.prec m = 0%Q)
  ∧ (∀ m, Metrics.true_positive m + Metrics.false_negative m = 0 →
          Metrics.recall m = 0%Q)
  ∧ (∀ m, (Metrics.prec m + Metrics.recall m == 0)%Q → Metrics.f1 m = 0%Q)
  ∧ (get_sent_map df = Ok sm →
     Forall no_instances (combinations2 workers) →
     (evaluate_generator_agreement eval_datasets verbose w).1
     = Err DivisionUndefined)
  ∧ (get_sent_map df = Ok sm →
     (2 ≤ length workers)%nat →
     Forall no_instances (permutations2 workers) →
     (evaluate_per_worker_iaa eval_datasets isPrinting w).1
     = Err DivisionUndefined).
Proof.
  intros df workers no_instances. split_and!.
  - reflexivity.
  - apply binary_accuracy_undefined.
  - reflexivity.
  - intros m Hm. unfold Metrics.prec, Metrics.ratio. by rewrite Hm.
  - intros m Hm. unfold Metrics.recall, Metrics.ratio. by rewrite Hm.
  - intros m Hm. unfold Metrics.f1. simpl.
    apply Qeq_bool_iff in Hm. by rewrite Hm.
  - intros Hsm Hzero.
    rewrite (evaluate_generator_agreement_run _ _ _ sm Hsm). simpl.
    destruct (generator_totals_run eval_datasets verbose df sm workers w)
      as (r & k & Hrun & Hok & Herr).
    fold df. fold workers. rewrite Hrun. simpl.
    destruct r as [tot|e]; [|by rewrite (Herr e eq_refl)].
    destruct (Hok tot eq_refl) as [-> _].
    rewrite binary_accuracy_undefined; [done|].
    apply instances_global_totals. unfold unordered_results.
    by apply Forall_fmap.
  - intros Hsm Hlen Hzero.
    assert (NoDup workers) as Hnd by apply NoDup_unique.
    assert (statistics_ready df) as Hready.
    { apply statistics_ready_workers. fold workers.
      intros Hnil. rewrite Hnil in Hlen. simpl in Hlen. lia. }
    rewrite (evaluate_per_worker_iaa_run _ _ _ sm Hsm Hready). fold df workers.
    unfold basic_statistics. rewrite keyed_worker_ids. fold df workers.
    destruct (sort_strings_head workers) as (w0 & rest & -> & Hw0).
    { intros Hnil. rewrite Hnil in Hlen. simpl in Hlen. lia. }
    rewrite fmap_cons.
    erewrite mapM_head_err; [done|]. unfold lift. f_equal.
    destruct (attributed_lookup eval_datasets df sm workers w0 Hnd Hw0)
      as [Hargs Hnoms].
    destruct (another_element workers w0 Hnd Hlen) as (y & Hy & Hne).
    assert (y ∈ filter (λ w2, w2 ≠ w0) workers) as Hfy.
    { by apply list_elem_of_filter. }
    unfold worker_row, per_worker_totals, dict_get. simpl.
    rewrite !lookup_fmap, Hargs, Hnoms.
    destruct (filter (λ w2, w2 ≠ w0) workers) as [|w2 others] eqn:Hothers.
    { by apply elem_of_nil in Hfy. }
    simpl fmap. cbv iota.
    assert (BinaryClassificationMetrics.accuracy
              (BinaryClassificationMetrics.sum
                 ((λ w3, nom_ident_metrics
                           (compare eval_datasets df sm (w0, w3)))
                  <$> w2 :: others)) = Err DivisionUndefined) as Hacc.
    { apply binary_accuracy_undefined.
      unfold BinaryClassificationMetrics.sum.
      rewrite binary_instances_fold; [done|].
      apply Forall_fmap, Forall_forall. intros w3 Hw3. simpl.
      rewrite <- Hothers in Hw3. apply list_elem_of_filter in Hw3 as [Hw3 ?].
      rewrite Forall_forall in Hzero. apply (Hzero (w0, w3)).
      by apply elem_of_permutations2. }
    unfold mbind, result_bind. simpl in Hacc |- *.
    destruct isPrinting; by rewrite Hacc.
Qed.

Lemma division_by_zero_policy_witness :
  (evaluate_generator_agreement zero_matcher false sample_world).1
  = Err DivisionUndefined
  ∧ (evaluate_per_worker_iaa zero_matcher true sample_world).1
    = Err DivisionUndefined.
Proof.
  destruct (division_by_zero_policy zero_matcher true false sample_world
              sample_sent_map) as (_ & _ & _ & _ & _ & _ & Hgen & Hiaa).
  split.
  - apply Hgen; [apply sample_sent_map_ok|].
    apply Forall_forall. by intros p _.
  - apply Hiaa; [apply sample_sent_map_ok | vm_compute; lia |].
    apply Forall_forall. by intros p _.
Defined.

(** ** The sentence index *)

Lemma lookup_sent_map (l : list Row) (sid : string) :
  dict_of_pairs ((λ r, (qasrl_id r, str_split (sentence r))) <$> l) !! sid
  = (λ r, str_split (sentence r)) <$> last (filter (λ r, qasrl_id r = sid) l).
Proof.
  unfold dict_of_pairs. induction l as [|r l IH] using rev_ind; [done|].
  rewrite fmap_app, fold_left_app, filter_app. simpl.
  destruct (decide (qasrl_id r = sid)) as [Hr|Hr].
  - rewrite filter_cons_True by done. rewrite filter_nil, last_snoc.
    rewrite <- Hr. by rewrite lookup_insert_eq.
  - rewrite filter_cons_False by done. rewrite filter_nil, app_nil_r.
    by rewrite lookup_insert_ne.
Qed.

(** C6, as stated, fails: on a table that gives the sentence [s1] two
    tokenizations, [get_sent_map] raises nothing and returns an index that
    holds the tokenization of the last row. *)
Lemma get_sent_map_keeps_conflict :
  conflicting_tokenizations conflict_table
  ∧ get_sent_map conflict_table = Ok {[ "s1" := ["a"; "c"] ]}
  ∧ get_sent_map conflict_table ≠ Err DataIntegrityError.
Proof.
  split_and!.
  - eexists _, _. split_and!.
    + by left.
    + right. by left.
    + done.
    + by vm_compute.
  - by vm_compute.
  - done.
Qed.

(** C6, amended.  [get_sent_map] never raises: for every table it returns
    an index, which maps each sentence id to the tokenization of the last
    row that carries it, and holds no other id. *)
Theorem get_sent_map_last_wins (df : DataFrame) :
  ∃ sm,
    get_sent_map df = Ok sm
    ∧ ∀ sid,
        sm !! sid
        = (λ r, str_split (sentence r))
          <$> last (filter (λ r, qasrl_id r = sid) (rows df)).
Proof.
  eexists. split; [done|]. intros sid. apply lookup_sent_map.
Qed.

(** ** The key of a predicate occurrence *)

Lemma no_underscore_uint d : no_underscore (NilEmpty.string_of_uint d).
Proof. induction d; simpl; done. Qed.

Lemma no_underscore_str_of_int i : no_underscore (str_of_int i).
Proof.
  unfold str_of_int, NilZero.string_of_int, NilZero.string_of_uint.
  destruct (Z.to_int i) as [d|d]; destruct d; simpl;
    try done; (split; [done|]); try (split; [done|]);
    apply no_underscore_uint.
Qed.

Lemma str_of_int_inj i j : str_of_int i = str_of_int j → i = j.
Proof.
  unfold str_of_int. intros Heq.
  assert (∀ z, NilZero.int_of_string (NilZero.string_of_int (Z.to_int z))
               = Some (Z.to_int z)) as Hparse.
  { intros z. apply NilZero.isi; destruct z; simpl; try done;
      intros [= H]; by apply Unsigned.to_uint_nonnil in H. }
  pose proof (Hparse i) as Hi. rewrite Heq, Hparse in Hi.
  injection Hi as Hi. by rewrite <- (DecimalZ.of_to i), <- Hi, DecimalZ.of_to.
Qed.

Lemma append_empty (s : string) : "" +:+ s = s.
Proof. reflexivity. Qed.

Lemma append_cons c (s t : string) : String c s +:+ t = String c (s +:+ t).
Proof. reflexivity. Qed.

Lemma underscore_in_suffix s d : ¬ no_underscore (s +:+ "_" +:+ d).
Proof.
  induction s as [|c s IH].
  - rewrite append_empty, append_cons. by intros [? _].
  - rewrite append_cons. by intros [_ ?].
Qed.

Lemma key_split s1 d1 s2 d2 :
  no_underscore d1 → no_underscore d2 →
  s1 +:+ "_" +:+ d1 = s2 +:+ "_" +:+ d2 → s1 = s2 ∧ d1 = d2.
Proof.
  intros H1 H2. revert s2.
  induction s1 as [|c s1 IH]; intros [|c' s2]; intros Heq;
    repeat (rewrite append_cons in Heq || rewrite append_empty in Heq).
  - by injection Heq as ->.
  - injection Heq as _ ->. exfalso. exact (underscore_in_suffix s2 d2 H1).
  - injection Heq as _ <-. exfalso. exact (underscore_in_suffix s1 d1 H2).
  - injection Heq as -> Hd. by destruct (IH s2 Hd) as [-> ->].
Qed.

Lemma make_key_inj s1 i1 s2 i2 :
  make_key s1 i1 = make_key s2 i2 → s1 = s2 ∧ i1 = i2.
Proof.
  unfold make_key. intros Heq.
  apply key_split in Heq as [-> Hd]; try apply no_underscore_str_of_int.
  split; [done | by apply str_of_int_inj].
Qed.

Global Instance key_of_cols_inj :
  Inj (=) (=) (λ p : string * Z, make_key p.1 p.2).
Proof.
  intros [s1 i1] [s2 i2] Heq. simpl in Heq.
  by apply make_key_inj in Heq as [-> ->].
Qed.

Lemma filter_fmap {A B} (P : B → Prop) `{∀ y, Decision (P y)}
    (f : A → B) (l : list A) :
  filter P (f <$> l) = f <$> filter (λ x, P (f x)) l.
Proof.
  induction l as [|x l IH]; [done|]. rewrite fmap_cons.
  destruct (decide (P (f x))).
  - by rewrite !filter_cons_True, fmap_cons, IH.
  - by rewrite !filter_cons_False, IH.
Qed.

Lemma keyed_select_cols df worker :
  cols <$> rows (select_worker (keyed df) worker)
  = cols <$> rows (select_worker df worker).
Proof.
  unfold keyed. case_decide; [done|]. simpl.
  rewrite filter_fmap, <- list_fmap_compose. by apply list_fmap_ext.
Qed.

Lemma keyed_keys_encoded df :
  "key" ∉ columns df ∨ keys_encoded (rows df) → keys_encoded (rows (keyed df)).
Proof.
  unfold keyed, keys_encoded. intros Hkey.
  case_decide as Hcol; [by destruct Hkey|]. simpl.
  apply Forall_fmap, Forall_forall. by intros r _.
Qed.

Lemma nunique_keys_encoded (l : list Row) :
  keys_encoded l →
  nunique key l = size (list_to_set (cols <$> l) : gset (string * Z)).
Proof.
  intros Hkeys. unfold nunique.
  assert (omap key l = (λ p : string * Z, make_key p.1 p.2) <$> (cols <$> l))
    as ->.
  { induction Hkeys as [|r l Hr _ IH]; [done|].
    rewrite !fmap_cons. simpl. rewrite Hr. simpl. f_equal. apply IH. }
  rewrite (length_unique_fmap_inj (λ p : string * Z, make_key p.1 p.2)).
  apply length_unique.
Qed.

(** C10, as stated, fails for a table that comes with a [key] column:
    [get_worker_statistics] counts the distinct values of that column, and
    on [sentence_key_table] worker [A] gets [num-predicates = 1] for rows
    on two predicate occurrences. *)
Lemma foreign_key_column_undercounts :
  (get_worker_statistics (MkWorld sentence_key_table [])).1
  = Ok [("A", MkBasic 1 2)]
  ∧ size (list_to_set
            ((λ r, (qasrl_id r, verb_idx r))
             <$> filter (λ r, worker_id r = "A") (rows sentence_key_table))
          : gset (string * Z))
    = 2%nat.
Proof.
  split.
  - by vm_compute.
  - rewrite <- length_unique. by vm_compute.
Qed.

(** C10, amended.  The key string of a row determines its predicate
    occurrence: two rows get the same key exactly when they agree on the
    sentence id and on the (integer) predicate index.  So, on a table that
    has rows and no [key] column, where [get_worker_statistics] builds the
    column, and on a table whose [key] column already holds these key
    strings, every worker of the table gets a record, and its
    [num-predicates] is the number of distinct (sentence id, predicate
    index) pairs among the rows of that worker. *)
Theorem key_encoding_injective (w : World) :
  (∀ s1 i1 s2 i2, make_key s1 i1 = make_key s2 i2 ↔ s1 = s2 ∧ i1 = i2)
  ∧ ((("key" ∉ columns (annot_df w)) ∧ rows (annot_df w) ≠ [])
     ∨ ("key" ∈ columns (annot_df w) ∧ keys_encoded (rows (annot_df w))) →
     ∃ stats,
       (get_worker_statistics w).1 = Ok stats
       ∧ (∀ worker, worker ∈ worker_id <$> rows (annot_df w)
                    ↔ worker ∈ stats.*1)
       ∧ ∀ worker st, (worker, st) ∈ stats →
           num_predicates st
           = size (list_to_set
                     ((λ r, (qasrl_id r, verb_idx r))
                      <$> filter (λ r, worker_id r = worker)
                            (rows (annot_df w)))
                   : gset (string * Z))).
Proof.
  split.
  { intros s1 i1 s2 i2. split; [apply make_key_inj | by intros [-> ->]]. }
  intros Hkey.
  assert (statistics_ready (annot_df w)) as Hready.
  { destruct Hkey as [[_ ?]|[? _]]; [by right | by left]. }
  assert ("key" ∉ columns (annot_df w) ∨ keys_encoded (rows (annot_df w)))
    as Hkey'.
  { destruct Hkey as [[? _]|[_ ?]]; [by left | by right]. }
  rewrite get_worker_statistics_run by done. cbn [fst].
  eexists. split; [done|].
  unfold basic_statistics. split.
  - intros worker. rewrite <- list_fmap_compose, keyed_worker_ids.
    rewrite (list_fmap_ext _ id _ (λ _ _ _, eq_refl)), list_fmap_id.
    unfold sort_strings. rewrite merge_sort_Permutation.
    by rewrite elem_of_unique.
  - intros worker st (worker' & Heq & _)%list_elem_of_fmap.
    injection Heq as -> ->. cbn [num_predicates].
    rewrite nunique_keys_encoded.
    + exact (f_equal (λ l, size (list_to_set l : gset (string * Z)))
               (keyed_select_cols (annot_df w) worker')).
    + pose proof (keyed_keys_encoded _ Hkey') as Hall.
      unfold keys_encoded in *. rewrite Forall_forall in Hall.
      apply Forall_forall. intros r [_ Hr]%list_elem_of_filter.
      by apply Hall.
Qed.

Lemma key_encoding_injective_witness :
  ∃ stats,
    (get_worker_statistics sample_world).1 = Ok stats
    ∧ ∀ worker st, (worker, st) ∈ stats →
        num_predicates st
        = size (list_to_set
                  ((λ r, (qasrl_id r, verb_idx r))
                   <$> filter (λ r, worker_id r = worker) (rows sample_table))
                : gset (string * Z)).
Proof.
  destruct (key_encoding_injective sample_world) as [_ Hcount].
  destruct Hcount as (stats & Hrun & _ & Hnum).
  - left. split; [|done]. intros Hin%list_elem_of_In. vm_compute in Hin.
    intuition discriminate.
  - exists stats. split; [exact Hrun | exact Hnum].
Defined.

(** ** Role counts *)

(** C4. [set_n_roles] counts the non-null values of the [verb] column: the
    row of [not_verbal_table] has no question, and gets [n_roles = 1]. *)
Theorem set_n_roles_counts_verb_column :
  ∃ df,
    (set_n_roles (MkWorld not_verbal_table [])).1 = Ok df
    ∧ n_roles <$> rows df = [Some 1%nat]
    ∧ count_notna question (rows not_verbal_table) = 0%nat.
Proof. eexists. split_and!; by vm_compute. Qed.

(** ** The table after a run *)

(** C8, as stated, fails: [sample_table] has no [key] column, and after
    [get_worker_statistics], [evaluate_per_worker_iaa] or
    [describe_worker_work] the table the caller passed in has one more
    column. *)
Lemma evaluation_adds_key_column :
  annot_df (get_worker_statistics sample_world).2 ≠ sample_table
  ∧ annot_df (evaluate_per_worker_iaa sample_matcher true sample_world).2
    ≠ sample_table
  ∧ annot_df (describe_worker_work sample_matcher sample_world).2
    ≠ sample_table
  ∧ columns (annot_df
               (evaluate_per_worker_iaa sample_matcher true sample_world).2)
    = sample_columns ++ ["key"].
Proof.
  split_and!.
  - intros H. apply (f_equal columns) in H. vm_compute in H. discriminate.
  - intros H. apply (f_equal columns) in H. vm_compute in H. discriminate.
  - intros H. apply (f_equal columns) in H. vm_compute in H. discriminate.
  - by vm_compute.
Qed.

Lemma describe_worker_work_fails
    (eval_datasets : DataFrame → DataFrame → gmap string (list string)
                     → option bool → MatcherOutput) (w : World) :
  ¬ statistics_ready (annot_df w) →
  describe_worker_work eval_datasets w = (Err ValueError, w).
Proof.
  intros Hready. destruct (get_sent_map_total (annot_df w)) as [sm Hsm].
  unfold describe_worker_work.
  unfold mbind at 1. unfold M_bind at 1. unfold get_df at 1.
  unfold mbind at 1. unfold M_bind at 1. unfold lift at 1. rewrite Hsm.
  unfold mbind at 1. unfold M_bind at 1.
  by rewrite evaluate_per_worker_iaa_fails.
Qed.

(** C8, amended.  The comparisons never change the table, but three
    helpers write a derived column into the table they are given, in place,
    and leave every other column and the rows as they are.
    [get_worker_statistics], and with it [evaluate_per_worker_iaa] and
    [describe_worker_work], add the [key] column, holding the key string of
    every row, to a table that has rows and no such column; they leave a
    table that has a [key] column as it is; on a table with no rows and no
    [key] column they raise [ValueError] and leave the table as it is.
    [set_n_workers] adds or overwrites the column [n_workers], and
    [set_n_roles] the column [n_roles], and both return the table they were
    given.  [evaluate_generator_agreement] leaves every table as it is.  The
    matcher always receives slices of the table as it was passed in, and
    the totals are componentwise sums of the values it returns: over all
    the pairs for the global totals, over the pairs of a worker for the
    totals of that worker. *)
Theorem table_after_run
    (eval_datasets : DataFrame → DataFrame → gmap string (list string)
                     → option bool → MatcherOutput)
    (isPrinting verbose : bool) (w : World) :
  let df := annot_df w in
  let workers := unique (worker_id <$> rows df) in
  let after :=
    if decide ("key" ∈ columns df) then df
    else if decide (rows df = []) then df
    else MkDataFrame (columns df ++ ["key"])
           ((λ r, with_key r (Some (make_key (qasrl_id r) (verb_idx r))))
            <$> rows df) in
  annot_df (get_worker_statistics w).2 = after
  ∧ annot_df (evaluate_per_worker_iaa eval_datasets isPrinting w).2 = after
  ∧ annot_df (describe_worker_work eval_datasets w).2 = after
  ∧ ("key" ∉ columns df → rows df = [] →
     (get_worker_statistics w).1 = Err ValueError
     ∧ (evaluate_per_worker_iaa eval_datasets isPrinting w).1 = Err ValueError
     ∧ (describe_worker_work eval_datasets w).1 = Err ValueError)
  ∧ annot_df (evaluate_generator_agreement eval_datasets verbose w).2 = df
  ∧ (∃ df',
       set_n_workers w = (Ok df', MkWorld df' (matcher_calls w))
       ∧ columns df' = (if decide ("n_workers" ∈ columns df) then columns df
                        else columns df ++ ["n_workers"])
       ∧ Forall2 (λ r r', is_Some (n_workers r')
                          ∧ r' = with_n_workers r (n_workers r'))
           (rows df) (rows df'))
  ∧ (∃ df',
       set_n_roles w = (Ok df', MkWorld df' (matcher_calls w))
       ∧ columns df' = (if decide ("n_roles" ∈ columns df) then columns df
                        else columns df ++ ["n_roles"])
       ∧ Forall2 (λ r r', is_Some (n_roles r')
                          ∧ r' = with_n_roles r (n_roles r'))
           (rows df) (rows df'))
  ∧ ∃ sm,
      get_sent_map df = Ok sm
      ∧ matcher_calls (evaluate_per_worker_iaa eval_datasets isPrinting w).2
        = matcher_calls w ++ (call_of df sm <$> permutations2 workers)
      ∧ matcher_calls (describe_worker_work eval_datasets w).2
        = matcher_calls w ++ (call_of df sm <$> permutations2 workers)
      ∧ (∃ k,
           matcher_calls (evaluate_generator_agreement eval_datasets verbose w).2
           = matcher_calls w
             ++ (call_of df sm <$> take k (combinations2 workers)))
      ∧ (∃ w',
           let outs := compare eval_datasets df sm <$> combinations2 workers in
           generator_totals eval_datasets false df sm workers w
           = (Ok (MkTotals (metrics_total (arg_metrics <$> outs))
                    (metrics_total (role_metrics <$> outs))
                    (binary_total (nom_ident_metrics <$> outs))), w'))
      ∧ (∃ args noms w',
           iaa_agreements eval_datasets df sm workers w = (Ok (args, noms), w')
           ∧ ∀ w1, w1 ∈ workers →
               let others := filter (λ w2, w2 ≠ w1) workers in
               others ≠ [] →
               (Metrics.sum <$> args) !! w1
               = Some (metrics_total
                         ((λ w2, arg_metrics
                                   (compare eval_datasets df sm (w1, w2)))
                          <$> others))
               ∧ (BinaryClassificationMetrics.sum <$> noms) !! w1
                 = Some (binary_total
                           ((λ w2, nom_ident_metrics
                                     (compare eval_datasets df sm (w1, w2)))
                            <$> others))).
Proof.
  intros df workers after.
  destruct (get_sent_map_total df) as [sm Hsm].
  assert ((if decide (statistics_ready df) then keyed df else df) = after)
    as Hkeyed.
  { unfold keyed, after, statistics_ready.
    destruct (decide ("key" ∈ columns df)) as [Hk|Hk].
    - by rewrite decide_True by by left.
    - destruct (decide (rows df = [])) as [Hr|Hr].
      + by rewrite decide_False by (intros [?|?]; done).
      + rewrite decide_True by by right.
        unfold assign, add_column. by rewrite decide_False. }
  split_and!.
  - rewrite <- Hkeyed. case_decide as Hready.
    + by rewrite get_worker_statistics_run.
    + by rewrite get_worker_statistics_fails.
  - by rewrite (evaluate_per_worker_iaa_world _ _ _ sm Hsm).
  - rewrite describe_worker_work_world.
    by rewrite (evaluate_per_worker_iaa_world _ _ _ sm Hsm).
  - intros Hk Hr.
    assert (¬ statistics_ready df) as Hready by (intros [?|?]; done).
    rewrite get_worker_statistics_fails, evaluate_per_worker_iaa_fails,
      describe_worker_work_fails by done.
    done.
  - destruct (evaluate_generator_agreement_world eval_datasets verbose w sm Hsm)
      as (k & -> & _). done.
  - eexists. split; [reflexivity|]. split; [done|].
    cbn [rows assign]. apply Forall2_fmap_r, Forall_Forall2_diag, Forall_forall.
    intros r _. split; [by eexists | done].
  - eexists. split; [reflexivity|]. split; [done|].
    cbn [rows assign]. apply Forall2_fmap_r, Forall_Forall2_diag, Forall_forall.
    intros r _. split; [by eexists | done].
  - exists sm. split_and!.
    + done.
    + by rewrite (evaluate_per_worker_iaa_world _ _ _ sm Hsm).
    + rewrite describe_worker_work_world.
      by rewrite (evaluate_per_worker_iaa_world _ _ _ sm Hsm).
    + destruct (evaluate_generator_agreement_world eval_datasets verbose w sm
                  Hsm) as (k & -> & _).
      by exists k.
    + eexists. cbv zeta. rewrite generator_totals_quiet.
      by rewrite global_totals_total.
    + eexists _, _, _. split.
      { rewrite iaa_agreements_run. by rewrite <- surjective_pairing. }
      intros w1 Hw1 others Hothers.
      destruct (attributed_lookup eval_datasets df sm workers w1
                  (NoDup_unique _) Hw1) as [Hargs Hnoms].
      rewrite !lookup_fmap, Hargs, Hnoms. fold others.
      destruct others as [|w2 others']; [done|]. cbn [fmap option_fmap option_map].
      by rewrite metrics_sum_total, binary_sum_total.
Qed.

Lemma table_after_run_witness :
  (evaluate_per_worker_iaa sample_matcher true (MkWorld empty_table [])).1
  = Err ValueError
  ∧ annot_df (evaluate_per_worker_iaa sample_matcher true
                (MkWorld empty_table [])).2
    = empty_table.
Proof.
  destruct (table_after_run sample_matcher true false (MkWorld empty_table []))
    as (_ & Htable & _ & Herr & _).
  split.
  - apply Herr; [|reflexivity].
    intros Hin%list_elem_of_In. vm_compute in Hin. intuition discriminate.
  - rewrite Htable. by vm_compute.
Defined.

(** * Further properties of the helpers *)

(** ** Counting predicate occurrences *)

Lemma fmap_drop_duplicates_from {A K} `{EqDecision K}
    (f : A → K) (seen : list K) (l : list A) :
  f <$> drop_duplicates_from f seen l = drop_duplicates_from id seen (f <$> l).
Proof.
  revert seen. induction l as [|x l IH]; intros seen; [done|].
  rewrite fmap_cons. cbn [drop_duplicates_from].
  change (id (f x)) with (f x).
  destruct (decide (f x ∈ seen)); [apply IH|].
  rewrite fmap_cons. f_equal. apply IH.
Qed.

Lemma length_drop_duplicates `{Countable K} {A} (f : A → K) (l : list A) :
  length (drop_duplicates f l) = size (list_to_set (f <$> l) : gset K).
Proof.
  rewrite <- length_unique. unfold unique, drop_duplicates.
  by rewrite <- fmap_drop_duplicates_from, length_fmap.
Qed.

Lemma length_drop_duplicates_from_le {A K} `{EqDecision K}
    (f : A → K) (seen : list K) (l : list A) :
  (length (drop_duplicates_from f seen l) ≤ length l)%nat.
Proof.
  revert seen. induction l as [|x l IH]; intros seen; simpl; [done|].
  case_decide; simpl.
  - specialize (IH seen). lia.
  - specialize (IH (f x :: seen)). lia.
Qed.

(** X1. [get_n_predicates] counts the distinct (sentence id, predicate
    index) pairs of the table: it does not depend on the order of the rows,
    never exceeds the number of rows, and is [0] only for a table without
    rows. *)
Theorem get_n_predicates_distinct (df : DataFrame) :
  get_n_predicates df = size (list_to_set (cols <$> rows df) : gset (string * Z))
  ∧ (get_n_predicates df ≤ length (rows df))%nat
  ∧ (get_n_predicates df = 0%nat ↔ rows df = [])
  ∧ ∀ df', rows df ≡ₚ rows df' → get_n_predicates df = get_n_predicates df'.
Proof.
  unfold get_n_predicates. split_and!.
  - apply length_drop_duplicates.
  - apply length_drop_duplicates_from_le.
  - destruct (rows df) as [|r l]; [done|]. by cbn.
  - intros df' Hp. rewrite !length_drop_duplicates. f_equal.
    apply set_eq. intros p. rewrite !elem_of_list_to_set. by rewrite Hp.
Qed.

Lemma get_n_predicates_distinct_witness :
  get_n_predicates sample_table = get_n_predicates
    (MkDataFrame sample_columns (reverse sample_rows)).
Proof.
  destruct (get_n_predicates_distinct sample_table) as (_ & _ & _ & Hperm).
  apply Hperm. simpl. symmetry. apply reverse_Permutation.
Defined.

Lemma get_n_predicates_select_worker_le (df : DataFrame) (worker : string) :
  (get_n_predicates (select_worker df worker) ≤ get_n_predicates df)%nat.
Proof.
  unfold get_n_predicates. rewrite !length_drop_duplicates.
  apply subseteq_size. intros p. rewrite !elem_of_list_to_set.
  intros (r & -> & Hr)%list_elem_of_fmap. apply list_elem_of_fmap.
  exists r. split; [done|]. simpl in Hr.
  by apply list_elem_of_filter in Hr as [_ ?].
Qed.

Lemma filter_none {A} (P : A → Prop) `{∀ x, Decision (P x)} (l : list A) :
  Forall (λ x, ¬ P x) l → filter P l = [].
Proof.
  induction 1 as [|x l Hx _ IH]; [done|]. by rewrite filter_cons_False.
Qed.

Global Instance some_key_of_cols_inj :
  Inj (=) (=) (λ p : string * Z, Some (make_key p.1 p.2)).
Proof.
  intros p q [= Heq]. by apply (inj (λ p : string * Z, make_key p.1 p.2)).
Qed.

Lemma keys_encoded_fmap (l : list Row) :
  keys_encoded l →
  key <$> l = (λ p : string * Z, Some (make_key p.1 p.2)) <$> (cols <$> l).
Proof.
  induction 1 as [|r l Hr _ IH]; [done|].
  rewrite !fmap_cons, IH. f_equal. by rewrite Hr.
Qed.

(** X2. [get_n_positive_predicates] needs the [key] column: without it the
    call fails with [KeyError: 'key'].  With a [key] column that holds the
    key strings of the rows, it returns a count that is at most the number
    of predicate occurrences [get_n_predicates] finds, and that is [0] when
    no row is marked verbal. *)
Theorem get_n_positive_predicates_bounds (df : DataFrame) :
  ("key" ∉ columns df →
   get_n_positive_predicates df = Err (KeyError "key"))
  ∧ ("key" ∈ columns df → keys_encoded (rows df) →
     ∃ n, get_n_positive_predicates df = Ok n
          ∧ (n ≤ get_n_predicates df)%nat
          ∧ (Forall (λ r, is_verbal r = false) (rows df) → n = 0%nat)).
Proof.
  unfold get_n_positive_predicates. split.
  - intros Hk. by rewrite decide_False.
  - intros Hk Hkeys. rewrite decide_True by done. eexists. split_and!.
    + done.
    + etrans; [apply length_filter|].
      unfold get_n_predicates. rewrite !length_drop_duplicates.
      rewrite (keys_encoded_fmap _ Hkeys).
      rewrite <- !length_unique.
      by rewrite (length_unique_fmap_inj
                    (λ p : string * Z, Some (make_key p.1 p.2))).
    + intros Hall. apply length_zero_iff_nil.
      apply filter_none. rewrite Forall_forall in Hall.
      apply Forall_forall. intros r Hr Hv.
      assert (r ∈ rows df) as Hin.
      { clear -Hr. unfold drop_duplicates in Hr. revert Hr.
        generalize (@nil (option string)).
        induction (rows df) as [|x l IH]; intros seen; simpl.
        - by intros ?%elem_of_nil.
        - case_decide.
          + intros ?%IH. by right.
          + intros [->|?%IH]%elem_of_cons; [by left | by right]. }
      specialize (Hall r Hin). congruence.
Qed.

Lemma get_n_positive_predicates_bounds_witness :
  get_n_positive_predicates sample_table = Err (KeyError "key")
  ∧ ∃ n, get_n_positive_predicates (keyed sample_table) = Ok n
         ∧ (n ≤ get_n_predicates (keyed sample_table))%nat.
Proof.
  split.
  - destruct (get_n_positive_predicates_bounds sample_table) as [Herr _].
    apply Herr. intros Hin%list_elem_of_In. vm_compute in Hin.
    intuition discriminate.
  - destruct (get_n_positive_predicates_bounds (keyed sample_table))
      as [_ Hok].
    destruct Hok as (n & Hn & Hle & _).
    + apply keyed_columns.
    + apply keyed_keys_encoded. left. intros Hin%list_elem_of_In.
      vm_compute in Hin. intuition discriminate.
    + by exists n.
Defined.

(** ** The basic statistics of the workers *)

Lemma NoDup_sort_strings (l : list string) : NoDup l → NoDup (sort_strings l).
Proof.
  intros Hnd. unfold sort_strings. by rewrite merge_sort_Permutation.
Qed.

Lemma elem_of_sort_strings (l : list string) x : x ∈ sort_strings l ↔ x ∈ l.
Proof. unfold sort_strings. by rewrite merge_sort_Permutation. Qed.

Lemma basic_statistics_keys (df : DataFrame) :
  (basic_statistics df).*1 = sort_strings (unique (worker_id <$> rows df)).
Proof.
  unfold basic_statistics. rewrite <- list_fmap_compose.
  by rewrite (list_fmap_ext _ id _ (λ _ _ _, eq_refl)), list_fmap_id.
Qed.

Lemma count_notna_cons {A B} (q : A → option B) (x : A) (l : list A) :
  count_notna q (x :: l)
  = (match q x with Some _ => 1 | None => 0 end + count_notna q l)%nat.
Proof. unfold count_notna. simpl. by destruct (q x). Qed.

Lemma count_notna_fmap {A B} (q : A → option B) (f : A → A) (l : list A) :
  (∀ x, q (f x) = q x) → count_notna q (f <$> l) = count_notna q l.
Proof.
  intros Hq. induction l as [|x l IH]; [done|].
  by rewrite fmap_cons, !count_notna_cons, Hq, IH.
Qed.

Lemma count_notna_split {B} (q : Row → option B) (P Q : Row → Prop)
    `{∀ r, Decision (P r)} `{∀ r, Decision (Q r)} (l : list Row) :
  (∀ r, P r → Q r → False) →
  (count_notna q (filter P l) + count_notna q (filter Q l)
   = count_notna q (filter (λ r, P r ∨ Q r) l))%nat.
Proof.
  intros Hdisj.
  induction l as [|r l IH]; [done|].
  destruct (decide (P r)) as [HP|HP]; destruct (decide (Q r)) as [HQ|HQ].
  - exfalso. by apply (Hdisj r).
  - rewrite (filter_cons_True P), (filter_cons_False Q) by done.
    rewrite (filter_cons_True (λ r, P r ∨ Q r)) by (by left).
    rewrite !count_notna_cons. lia.
  - rewrite (filter_cons_False P), (filter_cons_True Q) by done.
    rewrite (filter_cons_True (λ r, P r ∨ Q r)) by (by right).
    rewrite !count_notna_cons. lia.
  - rewrite (filter_cons_False P), (filter_cons_False Q) by done.
    rewrite (filter_cons_False (λ r, P r ∨ Q r)) by tauto. done.
Qed.

Lemma sum_count_by_worker {B} (q : Row → option B) (ws : list string)
    (l : list Row) :
  NoDup ws →
  sum_list ((λ w, count_notna q (filter (λ r, worker_id r = w) l)) <$> ws)
  = count_notna q (filter (λ r, worker_id r ∈ ws) l).
Proof.
  induction 1 as [|w ws Hw Hnd IH].
  - simpl. rewrite filter_none; [done|].
    apply Forall_forall. by intros r _ ?%elem_of_nil.
  - rewrite fmap_cons. simpl. rewrite IH.
    rewrite (count_notna_split q (λ r, worker_id r = w)
               (λ r, worker_id r ∈ ws)).
    + f_equal. apply list_filter_iff. intros r. rewrite elem_of_cons. done.
    + intros r -> ?. done.
Qed.

(** X3. [get_worker_statistics] is idempotent: a second call on the table
    the first call left behind returns the same records and changes nothing
    more. *)
Theorem get_worker_statistics_idempotent (w : World) :
  get_worker_statistics (get_worker_statistics w).2 = get_worker_statistics w.
Proof.
  destruct (decide (statistics_ready (annot_df w))) as [Hready|Hready].
  - rewrite (get_worker_statistics_run w) by done.
    rewrite get_worker_statistics_run by apply statistics_ready_keyed.
    simpl. by rewrite keyed_idemp.
  - rewrite (get_worker_statistics_fails w) by done. simpl.
    by rewrite get_worker_statistics_fails.
Qed.

(** X4. On a table that has a [key] column or at least one row,
    [get_worker_statistics] returns exactly one record per worker of the
    table, in ascending order of the worker ids.  On a table with no rows
    and no [key] column it raises [ValueError] and leaves the table as it
    is. *)
Theorem get_worker_statistics_sorted (w : World) :
  ("key" ∈ columns (annot_df w) ∨ rows (annot_df w) ≠ [] →
   ∃ stats,
     (get_worker_statistics w).1 = Ok stats
     ∧ NoDup stats.*1
     ∧ StronglySorted String.le stats.*1
     ∧ ∀ worker, worker ∈ stats.*1 ↔ worker ∈ worker_id <$> rows (annot_df w))
  ∧ ("key" ∉ columns (annot_df w) → rows (annot_df w) = [] →
     get_worker_statistics w = (Err ValueError, w)).
Proof.
  split.
  - intros Hready. rewrite get_worker_statistics_run by done.
    eexists. split; [done|].
    rewrite basic_statistics_keys, keyed_worker_ids. split_and!.
    + apply NoDup_sort_strings, NoDup_unique.
    + apply StronglySorted_merge_sort; apply _.
    + intros worker. by rewrite elem_of_sort_strings, elem_of_unique.
  - intros Hk Hr. apply get_worker_statistics_fails. intros [?|?]; done.
Qed.

Lemma get_worker_statistics_sorted_witness :
  (∃ stats,
     (get_worker_statistics sample_world).1 = Ok stats
     ∧ stats.*1 = ["A"; "B"; "C"])
  ∧ get_worker_statistics (MkWorld empty_table [])
    = (Err ValueError, MkWorld empty_table []).
Proof.
  destruct (get_worker_statistics_sorted sample_world) as [Hrun _].
  destruct (get_worker_statistics_sorted (MkWorld empty_table []))
    as [_ Hfail].
  split.
  - destruct Hrun as (stats & Hstats & _); [by right|].
    exists stats. split; [done|].
    vm_compute in Hstats. injection Hstats as <-. reflexivity.
  - apply Hfail; [|reflexivity].
    intros Hin%list_elem_of_In. vm_compute in Hin. intuition discriminate.
Defined.

(** X5. On a table that has a [key] column or at least one row, the
    [num-QAs] counts of [get_worker_statistics] add up to the number of rows
    of the table with a non-null question: every answered question is
    counted for exactly one worker. *)
Theorem num_QAs_total (w : World) :
  "key" ∈ columns (annot_df w) ∨ rows (annot_df w) ≠ [] →
  ∃ stats,
    (get_worker_statistics w).1 = Ok stats
    ∧ sum_list (num_QAs <$> stats.*2)
      = count_notna question (rows (annot_df w)).
Proof.
  intros Hready. rewrite get_worker_statistics_run by done.
  eexists. split; [done|].
  unfold basic_statistics. rewrite <- !list_fmap_compose.
  rewrite keyed_worker_ids.
  set (ws := sort_strings (unique (worker_id <$> rows (annot_df w)))).
  assert (count_notna question (rows (keyed (annot_df w)))
          = count_notna question (rows (annot_df w))) as <-.
  { unfold keyed. case_decide; [done|]. simpl.
    by apply count_notna_fmap. }
  rewrite <- (filter_all (λ r, worker_id r ∈ ws) (rows (keyed (annot_df w)))).
  - rewrite <- sum_count_by_worker.
    + done.
    + apply NoDup_sort_strings, NoDup_unique.
  - apply Forall_forall. intros r Hr. unfold ws.
    rewrite elem_of_sort_strings, elem_of_unique, <- keyed_worker_ids.
    apply list_elem_of_fmap. by exists r.
Qed.

Lemma num_QAs_total_witness :
  ∃ stats,
    (get_worker_statistics sample_world).1 = Ok stats
    ∧ sum_list (num_QAs <$> stats.*2) = 3%nat.
Proof.
  destruct (num_QAs_total sample_world) as (stats & Hrun & Hsum);
    [by right|].
  exists stats. split; [exact Hrun|]. rewrite Hsum. reflexivity.
Defined.

(** X6. On a table that has rows and no [key] column, where
    [get_worker_statistics] builds the column, and on a table whose [key]
    column already holds the key strings of the rows, the [num-predicates]
    of a worker is what [get_n_predicates] finds on the rows of that worker,
    and so at most what it finds on the whole table. *)
Theorem num_predicates_agrees (w : World) :
  (("key" ∉ columns (annot_df w)) ∧ rows (annot_df w) ≠ [])
  ∨ ("key" ∈ columns (annot_df w) ∧ keys_encoded (rows (annot_df w))) →
  ∃ stats,
    (get_worker_statistics w).1 = Ok stats
    ∧ ∀ worker st, (worker, st) ∈ stats →
        num_predicates st = get_n_predicates (select_worker (annot_df w) worker)
        ∧ (num_predicates st ≤ get_n_predicates (annot_df w))%nat.
Proof.
  intros Hkey.
  assert (statistics_ready (annot_df w)) as Hready.
  { destruct Hkey as [[_ ?]|[? _]]; [by right | by left]. }
  assert ("key" ∉ columns (annot_df w) ∨ keys_encoded (rows (annot_df w)))
    as Hkey'.
  { destruct Hkey as [[? _]|[_ ?]]; [by left | by right]. }
  rewrite get_worker_statistics_run by done. eexists. split; [done|].
  intros worker st (worker' & Heq & _)%list_elem_of_fmap.
  injection Heq as -> ->. cbn [num_predicates].
  rewrite nunique_keys_encoded.
  - pose proof (get_n_predicates_select_worker_le (annot_df w) worker') as Hle.
    unfold get_n_predicates in *.
    rewrite length_drop_duplicates, <- keyed_select_cols in *. done.
  - pose proof (keyed_keys_encoded _ Hkey') as Hall.
    unfold keys_encoded in *. rewrite Forall_forall in Hall.
    apply Forall_forall. intros r [_ Hr]%list_elem_of_filter.
    by apply Hall.
Qed.

Lemma num_predicates_agrees_witness :
  ∃ stats,
    (get_worker_statistics sample_world).1 = Ok stats
    ∧ ∀ worker st, (worker, st) ∈ stats →
        num_predicates st = get_n_predicates (select_worker sample_table worker).
Proof.
  destruct (num_predicates_agrees sample_world) as (stats & Hrun & Hnum).
  - left. split; [|done]. intros Hin%list_elem_of_In. vm_compute in Hin.
    intuition discriminate.
  - exists stats. split; [exact Hrun|].
    intros worker st Hin. by destruct (Hnum worker st Hin).
Defined.

(** ** The sentence index *)

Lemma last_filter_is_Some {A} (P : A → Prop) `{∀ x, Decision (P x)}
    (l : list A) :
  is_Some (last (filter P l)) ↔ ∃ x, x ∈ l ∧ P x.
Proof.
  split.
  - intros [x Hx]. exists x.
    assert (x ∈ filter P l) as Hin.
    { apply last_Some in Hx as [l' ->]. apply elem_of_app. right. by left. }
    apply list_elem_of_filter in Hin. tauto.
  - intros (x & Hx & HP).
    assert (x ∈ filter P l) as Hin by (by apply list_elem_of_filter).
    destruct (filter P l) as [|y l'] using rev_ind.
    + by apply elem_of_nil in Hin.
    + rewrite last_snoc. by eexists.
Qed.

(** X7. The sentence index holds exactly the sentence ids of the table, and
    when the table gives no sentence id two tokenizations, it maps the
    sentence id of every row to the tokens of that row's sentence. *)
Theorem get_sent_map_consistent (df : DataFrame) :
  ∃ sm,
    get_sent_map df = Ok sm
    ∧ dom sm = list_to_set (qasrl_id <$> rows df)
    ∧ (¬ conflicting_tokenizations df →
       ∀ r, r ∈ rows df → sm !! qasrl_id r = Some (str_split (sentence r))).
Proof.
  eexists. split; [done|]. split.
  - apply set_eq. intros sid.
    rewrite elem_of_dom, lookup_sent_map, elem_of_list_to_set.
    rewrite list_elem_of_fmap, fmap_is_Some, last_filter_is_Some.
    naive_solver.
  - intros Hcons r Hr. rewrite lookup_sent_map.
    destruct (last (filter (λ r', qasrl_id r' = qasrl_id r) (rows df)))
      as [r'|] eqn:Hlast.
    + simpl. f_equal.
      assert (r' ∈ filter (λ r', qasrl_id r' = qasrl_id r) (rows df)) as Hin.
      { apply last_Some in Hlast as [l' ->].
        apply elem_of_app. right. by left. }
      apply list_elem_of_filter in Hin as [Hid Hin].
      destruct (decide (str_split (sentence r') = str_split (sentence r)))
        as [|Hne]; [done|].
      destruct Hcons. by exists r', r.
    + exfalso. assert (is_Some (None : option Row)) as [? [=]].
      rewrite <- Hlast. apply last_filter_is_Some. by exists r.
Qed.

Lemma get_sent_map_consistent_witness :
  ∃ sm,
    get_sent_map sample_table = Ok sm
    ∧ ∀ r, r ∈ rows sample_table →
        sm !! qasrl_id r = Some (str_split (sentence r)).
Proof.
  destruct (get_sent_map_consistent sample_table) as (sm & Hsm & _ & Htok).
  exists sm. split; [exact Hsm|]. apply Htok.
  intros (r1 & r2 & H1 & H2 & Hid & Hne).
  apply Hne. clear Hne. revert Hid.
  apply list_elem_of_In in H1, H2.
  destruct H1 as [<-|[<-|[<-|[<-|[]]]]];
    destruct H2 as [<-|[<-|[<-|[<-|[]]]]];
    vm_compute; intros Hid; first [reflexivity | discriminate Hid].
Defined.

Lemma no_space_snoc (s : string) c :
  no_space s → is_space c = false → no_space (s +:+ String c "").
Proof.
  intros Hs Hc. induction s as [|c' s IH].
  - rewrite append_empty. by split.
  - rewrite append_cons. destruct Hs. split; [done | by apply IH].
Qed.

Lemma split_from_tokens (word s : string) :
  no_space word →
  Forall (λ t, t ≠ "" ∧ no_space t) (split_from word s).
Proof.
  revert word. induction s as [|c s IH]; intros word Hword; simpl.
  - case_decide; [constructor|]. by repeat constructor.
  - destruct (is_space c) eqn:Hc.
    + case_decide; [by apply IH|].
      constructor; [done | by apply IH].
    + by apply IH, no_space_snoc.
Qed.

(** X8. Every token of the sentence index is non-empty and free of
    whitespace, whatever the sentences of the table look like. *)
Theorem get_sent_map_tokens (df : DataFrame) (sm : gmap string (list string))
    (sid : string) (tokens : list string) :
  get_sent_map df = Ok sm → sm !! sid = Some tokens →
  Forall (λ t, t ≠ "" ∧ no_space t) tokens.
Proof.
  intros [= <-]. rewrite lookup_sent_map.
  destruct (last _) as [r|]; intros [= <-].
  by apply split_from_tokens.
Qed.

Lemma get_sent_map_tokens_witness :
  Forall (λ t, t ≠ "" ∧ no_space t)
    ["the"; "big"; "decision"; "was"; "made"].
Proof.
  apply (get_sent_map_tokens sample_table sample_sent_map "s1").
  - apply sample_sent_map_ok.
  - by vm_compute.
Defined.

(** ** The per-worker evaluation *)

Lemma mapM_ext_M {A B} (f g : A → M B) (l : list A) (w : World) :
  (∀ x w, f x w = g x w) → mapM f l w = mapM g l w.
Proof.
  intros Hfg. revert w. induction l as [|x l IH]; intros w; [done|].
  simpl. unfold mbind, M_bind. rewrite Hfg.
  destruct (g x w) as [[y|e] w']; [|done]. by rewrite IH.
Qed.

Lemma mapM_lift_ok {A B} (f : A → result B) (g : A → B) (l : list A)
    (w : World) :
  (∀ x, x ∈ l → f x = Ok (g x)) →
  mapM (M:=M) (λ x, lift (f x)) l w = (Ok (g <$> l), w).
Proof.
  induction l as [|x l IH]; intros Hf; [done|].
  simpl. unfold mbind, M_bind. change (lift (f x) w) with (f x, w).
  rewrite (Hf x) by (by left).
  match goal with
  | |- (let (r, w') := ?m in _) = _ => replace m with (Ok (g <$> l), w)
  end; [done|].
  symmetry. apply IH. intros y Hy. apply Hf. by right.
Qed.

Lemma worker_row_printing args noms worker st :
  worker_row true args noms worker st = worker_row false args noms worker st.
Proof.
  unfold worker_row, mbind, result_bind.
  destruct (dict_get args worker); [|done].
  destruct (dict_get noms worker); [|done].
  by destruct (BinaryClassificationMetrics.accuracy _).
Qed.

(** X9. On a table without rows [evaluate_per_worker_iaa] never calls the
    matcher and leaves the table as it is.  When the table has a [key]
    column it returns an empty dictionary; when it has none, the run fails
    with the [ValueError] of [get_worker_statistics]. *)
Theorem evaluate_per_worker_iaa_empty
    (eval_datasets : DataFrame → DataFrame → gmap string (list string)
                     → option bool → MatcherOutput)
    (isPrinting : bool) (w : World) :
  rows (annot_df w) = [] →
  evaluate_per_worker_iaa eval_datasets isPrinting w
  = (if decide ("key" ∈ columns (annot_df w)) then Ok [] else Err ValueError,
     w).
Proof.
  intros Hrows. destruct (get_sent_map_total (annot_df w)) as [sm Hsm].
  case_decide as Hkey.
  - rewrite (evaluate_per_worker_iaa_run _ _ _ sm Hsm (or_introl Hkey)).
    unfold basic_statistics. rewrite keyed_worker_ids, Hrows.
    change (unique (worker_id <$> [])) with (@nil string).
    change (sort_strings []) with (@nil string).
    change (permutations2 (@nil string)) with (@nil (string * string)).
    rewrite !fmap_nil, app_nil_r. unfold keyed. rewrite decide_True by done.
    by destruct w.
  - apply evaluate_per_worker_iaa_fails. intros [?|?]; done.
Qed.

Lemma evaluate_per_worker_iaa_empty_witness :
  evaluate_per_worker_iaa sample_matcher true (MkWorld empty_keyed_table [])
  = (Ok [], MkWorld empty_keyed_table [])
  ∧ evaluate_per_worker_iaa sample_matcher true (MkWorld empty_table [])
    = (Err ValueError, MkWorld empty_table []).
Proof.
  split.
  - by rewrite (evaluate_per_worker_iaa_empty sample_matcher true
                  (MkWorld empty_keyed_table []) eq_refl).
  - by rewrite (evaluate_per_worker_iaa_empty sample_matcher true
                  (MkWorld empty_table []) eq_refl).
Defined.

(** X10. The flag [isPrinting] only switches the console output: with or
    without it [evaluate_per_worker_iaa] returns the same records, fails
    with the same exception, and leaves the same table and the same calls
    behind. *)
Theorem evaluate_per_worker_iaa_printing
    (eval_datasets : DataFrame → DataFrame → gmap string (list string)
                     → option bool → MatcherOutput)
    (w : World) :
  evaluate_per_worker_iaa eval_datasets true w
  = evaluate_per_worker_iaa eval_datasets false w.
Proof.
  destruct (get_sent_map_total (annot_df w)) as [sm Hsm].
  destruct (decide (statistics_ready (annot_df w))) as [Hready|Hready].
  - rewrite !(evaluate_per_worker_iaa_run _ _ _ sm Hsm Hready).
    apply mapM_ext_M. intros [worker st] w'. unfold lift.
    by rewrite worker_row_printing.
  - by rewrite !evaluate_per_worker_iaa_fails.
Qed.

(** X11. When the table has two workers or more and the accuracy of every
    worker's summed is-verbal metrics is defined,
    [evaluate_per_worker_iaa] succeeds: it returns one record per worker, in
    ascending order of the worker ids, with the worker's basic counts, the
    sum of the argument metrics of the comparisons of that worker with
    every other worker, and the accuracy of the sum of their is-verbal
    metrics. *)
Theorem evaluate_per_worker_iaa_records
    (eval_datasets : DataFrame → DataFrame → gmap string (list string)
                     → option bool → MatcherOutput)
    (isPrinting : bool) (w : World) (sm : gmap string (list string)) :
  let df := annot_df w in
  let workers := unique (worker_id <$> rows df) in
  let others := λ worker, filter (λ w2, w2 ≠ worker) workers in
  let arg_total := λ worker,
    Metrics.sum ((λ w2, arg_metrics (compare eval_datasets df sm (worker, w2)))
                 <$> others worker) in
  let nom_total := λ worker,
    BinaryClassificationMetrics.sum
      ((λ w2, nom_ident_metrics (compare eval_datasets df sm (worker, w2)))
       <$> others worker) in
  get_sent_map df = Ok sm →
  (2 ≤ length workers)%nat →
  (∀ worker, worker ∈ workers →
     is_ok (BinaryClassificationMetrics.accuracy (nom_total worker)) = true) →
  ∃ stats,
    (evaluate_per_worker_iaa eval_datasets isPrinting w).1 = Ok stats
    ∧ stats.*1 = sort_strings workers
    ∧ ∀ worker st, (worker, st) ∈ stats →
        (worker, MkBasic (stat_num_predicates st) (stat_num_QAs st))
          ∈ basic_statistics (keyed df)
        ∧ stat_arg_agreement st = arg_total worker
        ∧ BinaryClassificationMetrics.accuracy (nom_total worker)
          = Ok (stat_is_verbal_accuracy st).
Proof.
  intros df workers others arg_total nom_total Hsm Hlen Hinst.
  assert (NoDup workers) as Hnd by apply NoDup_unique.
  set (acc := λ worker,
    match BinaryClassificationMetrics.accuracy (nom_total worker) with
    | Ok a => a
    | Err _ => 0%Q
    end).
  set (record := λ p : string * BasicStatistics,
    (p.1, MkStats (num_predicates p.2) (num_QAs p.2) (arg_total p.1)
            (acc p.1))).
  assert (∀ worker, worker ∈ workers →
    BinaryClassificationMetrics.accuracy (nom_total worker)
    = Ok (acc worker)) as Hacc.
  { intros worker Hw. specialize (Hinst worker Hw). unfold acc.
    by destruct (BinaryClassificationMetrics.accuracy (nom_total worker)). }
  exists (record <$> basic_statistics (keyed df)).
  assert (∀ p, p ∈ basic_statistics (keyed df) → p.1 ∈ workers) as Hkeys.
  { intros p Hp. apply (list_elem_of_fmap_2 fst) in Hp.
    rewrite basic_statistics_keys, keyed_worker_ids in Hp.
    by rewrite elem_of_sort_strings in Hp. }
  assert (statistics_ready df) as Hready.
  { apply statistics_ready_workers. fold workers.
    intros Hnil. rewrite Hnil in Hlen. simpl in Hlen. lia. }
  split_and!.
  - rewrite (evaluate_per_worker_iaa_run _ _ _ sm Hsm Hready).
    rewrite (mapM_ext_M _ (λ p, lift (worker_row isPrinting
               (per_worker_totals
                  (ordered_results eval_datasets df sm workers)).1
               (per_worker_totals
                  (ordered_results eval_datasets df sm workers)).2
               p.1 p.2))) by (by intros [??] ?).
    rewrite (mapM_lift_ok _ record); [done|].
    intros [worker st] Hp. specialize (Hkeys _ Hp). simpl in Hkeys.
    destruct (attributed_lookup eval_datasets df sm workers worker Hnd Hkeys)
      as [Hargs Hnoms].
    destruct (another_element workers worker Hnd Hlen) as (y & Hy & Hne).
    assert (y ∈ filter (λ w2, w2 ≠ worker) workers) as Hfy.
    { by apply list_elem_of_filter. }
    destruct isPrinting; [rewrite worker_row_printing|];
      unfold worker_row, per_worker_totals, dict_get; simpl;
      rewrite !lookup_fmap, Hargs, Hnoms;
      specialize (Hacc worker Hkeys); unfold nom_total, others in Hacc;
      (destruct (filter (λ w2, w2 ≠ worker) workers) as [|w2 rest] eqn:Hoth;
       [by apply elem_of_nil in Hfy|]);
      simpl fmap; cbv iota; unfold mbind, result_bind;
      simpl in Hacc |- *; rewrite Hacc; unfold record, arg_total, others;
      simpl; by rewrite Hoth.
  - rewrite <- list_fmap_compose.
    rewrite (list_fmap_ext (fst ∘ record) fst _ (λ _ _ _, eq_refl)).
    by rewrite basic_statistics_keys, keyed_worker_ids.
  - intros worker st (p & Heq & Hp)%list_elem_of_fmap.
    injection Heq as -> ->. simpl. split_and!.
    + by destruct p as [? []].
    + done.
    + apply Hacc. by apply Hkeys.
Qed.

Lemma evaluate_per_worker_iaa_records_witness :
  ∃ stats,
    (evaluate_per_worker_iaa sample_matcher false sample_world).1 = Ok stats
    ∧ stats.*1 = ["A"; "B"; "C"].
Proof.
  destruct (evaluate_per_worker_iaa_records sample_matcher false sample_world
              sample_sent_map) as (stats & Hrun & Hkeys & _).
  - apply sample_sent_map_ok.
  - vm_compute. lia.
  - intros worker Hw%elem_of_unique%list_elem_of_In.
    vm_compute in Hw. destruct Hw as [<-|[<-|[<-|[]]]]; by vm_compute.
  - exists stats. split; [exact Hrun|]. rewrite Hkeys. by vm_compute.
Defined.

(** ** The global evaluation *)




(** ** Ordered against unordered pairing *)

Lemma permutations2_split {A} (l : list A) :
  NoDup l →
  permutations2 l ≡ₚ combinations2 l ++ (prod_swap <$> combinations2 l).
Proof.
  intros Hnd. apply NoDup_Permutation.
  - by apply NoDup_permutations2.
  - apply NoDup_app. split_and!.
    + by apply NoDup_combinations2.
    + intros [a b] Hab ([c d] & [= -> ->] & Hcd)%list_elem_of_fmap.
      by apply (combinations2_once l d c Hnd).
    + apply (NoDup_fmap_2 _). by apply NoDup_combinations2.
  - intros [a b]. rewrite (elem_of_permutations2 _ _ _ Hnd), elem_of_app.
    rewrite list_elem_of_fmap. split.
    + intros (Ha & Hb & Hne).
      destruct (combinations2_total l a b Ha Hb Hne) as [?|?]; [by left|].
      right. by exists (b, a).
    + intros [Hab|([c d] & [= -> ->] & Hcd)].
      * pose proof (elem_of_combinations2 _ _ _ Hab) as [? ?].
        split_and!; [done | done | by eapply combinations2_distinct].
      * pose proof (elem_of_combinations2 _ _ _ Hcd) as [? ?].
        split_and!; [done | done |].
        intros Heq. apply (combinations2_distinct l _ _ Hnd Hcd).
        simpl in Heq. congruence.
Qed.

(** X13. The two evaluations compare the same pairs: the matcher calls of
    [evaluate_per_worker_iaa] are, up to their order, the calls of a run of
    [evaluate_generator_agreement] that is not verbose together with the
    same calls with the two workers exchanged. *)
Theorem ordered_calls_both_directions
    (eval_datasets : DataFrame → DataFrame → gmap string (list string)
                     → option bool → MatcherOutput)
    (isPrinting : bool) (w : World) :
  matcher_calls w = [] →
  let unordered :=
    matcher_calls (evaluate_generator_agreement eval_datasets false w).2 in
  matcher_calls (evaluate_per_worker_iaa eval_datasets isPrinting w).2
  ≡ₚ unordered ++ (swap_call <$> unordered).
Proof.
  intros Hcalls. simpl.
  destruct (get_sent_map_total (annot_df w)) as [sm Hsm].
  rewrite (evaluate_per_worker_iaa_world _ _ _ sm Hsm).
  destruct (evaluate_generator_agreement_world eval_datasets false w sm Hsm)
    as (k & -> & Hall).
  rewrite (Hall (or_introl eq_refl)), Hcalls. simpl.
  rewrite permutations2_split by apply NoDup_unique.
  rewrite fmap_app, <- !list_fmap_compose.
  apply Permutation_app; [done|].
  by rewrite (list_fmap_ext (call_of (annot_df w) sm ∘ prod_swap)
                (swap_call ∘ call_of (annot_df w) sm) _ (λ _ _ _, eq_refl)).
Qed.

Lemma ordered_calls_both_directions_witness :
  let unordered :=
    matcher_calls (evaluate_generator_agreement sample_matcher false
                     sample_world).2 in
  matcher_calls (evaluate_per_worker_iaa sample_matcher true sample_world).2
  ≡ₚ unordered ++ (swap_call <$> unordered).
Proof.
  exact (ordered_calls_both_directions sample_matcher true sample_world
           eq_refl).
Defined.

(** ** Workers per predicate occurrence *)

Lemma omap_Some_fmap {A B} (f : A → B) (l : list A) :
  omap (λ x, Some (f x)) l = f <$> l.
Proof. induction l as [|x l IH]; [done|]. simpl. f_equal. Qed.

(** X14. [set_n_workers] adds the column [n_workers] to the table in place
    and returns the table: every row keeps its other fields and gets the
    number of distinct workers among the rows of its predicate occurrence,
    which is at least [1] (rows with a null question count like any other)
    and at most the number of distinct workers of the table; rows of the
    same predicate occurrence get the same number. *)
Theorem set_n_workers_counts (w : World) :
  let df := annot_df w in
  let group := λ r, filter (λ r', cols r' = cols r) (rows df) in
  let n := λ r, size (list_to_set (worker_id <$> group r) : gset string) in
  ∃ df',
    set_n_workers w = (Ok df', MkWorld df' (matcher_calls w))
    ∧ "n_workers" ∈ columns df'
    ∧ rows df' = (λ r, with_n_workers r (Some (n r))) <$> rows df
    ∧ (∀ r, r ∈ rows df →
         (1 ≤ n r)%nat
         ∧ (n r ≤ size (list_to_set (worker_id <$> rows df) : gset string))%nat)
    ∧ (∀ r1 r2, cols r1 = cols r2 → n r1 = n r2).
Proof.
  intros df group n. eexists. split_and!.
  - unfold set_n_workers, mbind, M_bind, get_df, put_df. simpl. done.
  - simpl. unfold add_column. case_decide; [done|].
    apply elem_of_app. right. by left.
  - simpl. apply list_fmap_ext. intros i r Hr. f_equal. f_equal.
    unfold nunique. rewrite omap_Some_fmap. apply length_unique.
  - intros r Hr. split.
    + assert (worker_id r ∈ (list_to_set (worker_id <$> group r) : gset string))
        as Hin.
      { apply elem_of_list_to_set, list_elem_of_fmap. exists r.
        split; [done|]. by apply list_elem_of_filter. }
      destruct (decide (n r = 0%nat)) as [Hz|]; [|lia].
      unfold n in Hz. apply size_empty_iff in Hz. set_solver.
    + unfold n. apply subseteq_size. intros x.
      rewrite !elem_of_list_to_set, !list_elem_of_fmap.
      intros (r' & -> & Hr'). exists r'. split; [done|].
      by apply list_elem_of_filter in Hr' as [_ ?].
  - intros r1 r2 Heq. unfold n, group. by rewrite Heq.
Qed.

Lemma set_n_workers_counts_witness :
  n_workers <$> rows (annot_df (set_n_workers sample_world).2)
  = [Some 2%nat; Some 2%nat; Some 2%nat; Some 2%nat].
Proof.
  destruct (set_n_workers_counts sample_world)
    as (df' & Hrun & _ & Hrows & _).
  rewrite Hrun. simpl. rewrite Hrows. by vm_compute.
Defined.

(** ** The description of the workers *)

Lemma describe_worker_work_unfold
    (eval_datasets : DataFrame → DataFrame → gmap string (list string)
                     → option bool → MatcherOutput) (w : World) :
  describe_worker_work eval_datasets w
  = match evaluate_per_worker_iaa eval_datasets false w with
    | (Ok agreement_stats, w1) =>
        mapM (describe_worker agreement_stats)
          (unique (worker_id <$> rows (annot_df w)))
          (MkWorld (keyed (annot_df w1)) (matcher_calls w1))
    | (Err e, w1) => (Err e, w1)
    end.
Proof.
  destruct (get_sent_map_total (annot_df w)) as [sm Hsm].
  pose proof (evaluate_per_worker_iaa_world eval_datasets false w sm Hsm)
    as Hworld.
  pose proof (evaluate_per_worker_iaa_ok_ready eval_datasets false w) as Hok.
  unfold describe_worker_work.
  unfold mbind at 1. unfold M_bind at 1. unfold get_df at 1.
  unfold mbind at 1. unfold M_bind at 1. unfold lift at 1. rewrite Hsm.
  unfold mbind at 1. unfold M_bind at 1.
  destruct (evaluate_per_worker_iaa eval_datasets false w)
    as [[stats|e] w1]; [|done].
  simpl in Hworld, Hok. specialize (Hok eq_refl).
  rewrite decide_True in Hworld by done.
  unfold mbind at 1. unfold M_bind at 1.
  rewrite get_worker_statistics_run; [done|].
  subst w1. apply statistics_ready_keyed.
Qed.

Lemma describe_worker_frame stats worker w :
  (describe_worker stats worker w).2 = w.
Proof.
  unfold describe_worker, mbind, M_bind, get_df, lift.
  repeat case_match; simplify_eq/=; done.
Qed.

Lemma mapM_inv {A B} (f : A → M B) (l : list A) (w w' : World) ys :
  (∀ x w, (f x w).2 = w) →
  mapM f l w = (Ok ys, w') →
  w' = w ∧ Forall2 (λ x y, f x w = (Ok y, w)) l ys.
Proof.
  intros Hf. revert ys. induction l as [|x l IH]; intros ys; simpl.
  - intros [= <- <-]. by split.
  - unfold mbind, M_bind. pose proof (Hf x w) as Hx.
    destruct (f x w) as [[y|e] w1] eqn:Hfx; simpl in Hx; subst w1; [|done].
    destruct (mapM f l w) as [[zs|e] w2] eqn:Hrest; [|done].
    intros [= <- <-]. destruct (IH zs eq_refl) as [-> Hall].
    split; [done|]. by constructor.
Qed.

Lemma mapM_err_any {A B} (f : A → M B) (l : list A) (w : World) (e : error) :
  (∀ x, x ∈ l → (∃ y, f x w = (Ok y, w)) ∨ f x w = (Err e, w)) →
  (∃ x, x ∈ l ∧ f x w = (Err e, w)) →
  mapM f l w = (Err e, w).
Proof.
  induction l as [|x l IH]; intros Hall (x0 & Hx0 & Herr).
  - by apply elem_of_nil in Hx0.
  - destruct (Hall x) as [[y Hy]|Hy]; [by left | |].
    + assert (mapM f l w = (Err e, w)) as Hrest.
      { apply IH.
        - intros z Hz. apply Hall. by right.
        - apply elem_of_cons in Hx0 as [->|Hx0]; [congruence|].
          by exists x0. }
      simpl. unfold mbind, M_bind. rewrite Hy.
      destruct (mapM f l w) as [[ys|e'] w'] eqn:E; simpl in *; congruence.
    + simpl. unfold mbind, M_bind. by rewrite Hy.
Qed.

Lemma Forall2_impl_elem {A B} (P Q : A → B → Prop) (l : list A) (k : list B) :
  Forall2 P l k → (∀ x y, x ∈ l → P x y → Q x y) → Forall2 Q l k.
Proof.
  induction 1 as [|x y l k Hxy _ IH]; intros Himpl; constructor.
  - apply Himpl; [by left | done].
  - apply IH. intros x' y' Hx'. apply Himpl. by right.
Qed.

Lemma assoc_get_is_ok {V} (d : list (string * V)) (k : string) :
  k ∈ d.*1 → ∃ v, assoc_get d k = Ok v.
Proof.
  induction d as [|[k' v] d IH]; simpl.
  - by intros ?%elem_of_nil.
  - intros Hk. case_decide; [by eexists|].
    apply IH. apply elem_of_cons in Hk as [->|]; done.
Qed.

Lemma worker_row_key isPrinting args noms worker st y :
  worker_row isPrinting args noms worker st = Ok y → y.1 = worker.
Proof.
  destruct isPrinting; [rewrite worker_row_printing|];
    unfold worker_row, mbind, result_bind, mret, result_ret;
    repeat case_match; try done; by intros [= <-].
Qed.

Lemma evaluate_per_worker_iaa_keys
    (eval_datasets : DataFrame → DataFrame → gmap string (list string)
                     → option bool → MatcherOutput)
    (isPrinting : bool) (w : World) stats :
  (evaluate_per_worker_iaa eval_datasets isPrinting w).1 = Ok stats →
  stats.*1 = sort_strings (unique (worker_id <$> rows (annot_df w))).
Proof.
  destruct (get_sent_map_total (annot_df w)) as [sm Hsm].
  intros Hstats.
  assert (statistics_ready (annot_df w)) as Hready.
  { apply (evaluate_per_worker_iaa_ok_ready eval_datasets isPrinting).
    by rewrite Hstats. }
  revert Hstats. rewrite (evaluate_per_worker_iaa_run _ _ _ sm Hsm Hready).
  rewrite <- (keyed_worker_ids (annot_df w)), <- basic_statistics_keys.
  destruct (mapM (M:=M) _ _ _) as [r w1] eqn:Hrun. simpl. intros ->.
  apply mapM_inv in Hrun as [_ Hall]; [|by intros [??] ?].
  induction Hall as [|[k s] y l ys Hy _ IH]; [done|].
  rewrite !fmap_cons, IH. f_equal. unfold lift in Hy.
  injection Hy as Hy. by apply worker_row_key in Hy.
Qed.

Lemma elem_of_drop_duplicates_from {A K} `{EqDecision K}
    (f : A → K) (seen : list K) (l : list A) (x : A) :
  x ∈ drop_duplicates_from f seen l → x ∈ l.
Proof.
  revert seen. induction l as [|y l IH]; intros seen; simpl.
  - by intros ?%elem_of_nil.
  - case_decide.
    + intros ?%IH. by right.
    + intros [->|?%IH]%elem_of_cons; [by left | by right].
Qed.

Lemma keyed_rows_inv df r' :
  r' ∈ rows (keyed df) →
  ∃ r, r ∈ rows df ∧ worker_id r' = worker_id r
       ∧ is_verbal r' = is_verbal r.
Proof.
  unfold keyed. case_decide; [by exists r'|]. simpl.
  intros (r & -> & Hr)%list_elem_of_fmap. by exists r.
Qed.

Lemma describe_worker_outcome stats worker (w : World) s :
  let df := select_worker (annot_df w) worker in
  let n_positive :=
    length (filter (λ r, is_verbal r = true) (drop_duplicates key (rows df))) in
  "key" ∈ columns (annot_df w) →
  worker ∈ worker_id <$> rows (annot_df w) →
  assoc_get stats worker = Ok s →
  (n_positive = 0%nat →
   describe_worker stats worker w = (Err ZeroDivisionError, w))
  ∧ (n_positive ≠ 0%nat →
     ∃ d, describe_worker stats worker w = (Ok d, w)
          ∧ descr_n_positive_predicates d = n_positive
          ∧ descr_n_predicates d = get_n_predicates df
          ∧ descr_agreement d = s).
Proof.
  intros df n_positive Hkey Hworker Hstats.
  assert (get_n_predicates df ≠ 0%nat) as Hpred.
  { apply list_elem_of_fmap in Hworker as (r & -> & Hr).
    assert (r ∈ rows df) as Hin by (by apply list_elem_of_filter).
    unfold get_n_predicates. destruct (rows df) as [|r0 l]; [|done].
    by apply elem_of_nil in Hin. }
  unfold describe_worker, mbind, M_bind, get_df, lift. simpl.
  unfold get_n_positive_predicates. simpl.
  rewrite !decide_True by done. fold df. fold n_positive.
  unfold true_div. split.
  - intros Hz. by rewrite decide_True.
  - intros Hnz. rewrite decide_False by done.
    rewrite decide_False by done. rewrite Hstats. by eexists.
Qed.

(** X15. [describe_worker_work] first runs [evaluate_per_worker_iaa] and
    fails as that run fails.  When that run succeeds and some worker of the
    table has no row marked verbal, the mean number of roles divides by
    zero and the description fails with [ZeroDivisionError].  When the
    description succeeds it holds one entry per worker, in the order of
    their first rows, each with the worker's number of predicates, a
    number of positive predicates that is not zero, and the worker's record
    of the agreement evaluation. *)
Theorem describe_worker_work_outcome
    (eval_datasets : DataFrame → DataFrame → gmap string (list string)
                     → option bool → MatcherOutput)
    (w : World) :
  let df := annot_df w in
  let workers := unique (worker_id <$> rows df) in
  (∀ e w1, evaluate_per_worker_iaa eval_datasets false w = (Err e, w1) →
           describe_worker_work eval_datasets w = (Err e, w1))
  ∧ (∀ stats worker,
       (evaluate_per_worker_iaa eval_datasets false w).1 = Ok stats →
       worker ∈ workers →
       Forall (λ r, worker_id r = worker → is_verbal r = false) (rows df) →
       (describe_worker_work eval_datasets w).1 = Err ZeroDivisionError)
  ∧ (∀ descriptions,
       (describe_worker_work eval_datasets w).1 = Ok descriptions →
       ∃ stats,
         (evaluate_per_worker_iaa eval_datasets false w).1 = Ok stats
         ∧ Forall2 (λ worker d,
               descr_n_predicates d
               = get_n_predicates (select_worker (keyed df) worker)
               ∧ descr_n_positive_predicates d ≠ 0%nat
               ∧ assoc_get stats worker = Ok (descr_agreement d))
             workers descriptions).
Proof.
  intros df workers.
  destruct (get_sent_map_total df) as [sm Hsm].
  pose proof (evaluate_per_worker_iaa_world eval_datasets false w sm Hsm)
    as Hworld.
  pose proof (evaluate_per_worker_iaa_keys eval_datasets false w) as Hkeys.
  pose proof (evaluate_per_worker_iaa_ok_ready eval_datasets false w) as Hok.
  rewrite describe_worker_work_unfold.
  destruct (evaluate_per_worker_iaa eval_datasets false w)
    as [[stats|e] w1]; simpl in Hworld, Hkeys, Hok.
  2: { split_and!; [by intros ?? [= <- <-] | done | done]. }
  specialize (Hok eq_refl). rewrite decide_True in Hworld by done.
  subst w1; simpl.
  rewrite keyed_idemp. specialize (Hkeys stats eq_refl).
  match goal with |- context [MkWorld (keyed ?d) ?c] =>
    set (w1 := MkWorld (keyed d) c) end.
  assert (∀ x, x ∈ workers →
    ∃ s, assoc_get stats x = Ok s
         ∧ "key" ∈ columns (annot_df w1)
         ∧ x ∈ worker_id <$> rows (annot_df w1)) as Hready.
  { intros x Hx. destruct (assoc_get_is_ok stats x) as [s Hs].
    - rewrite Hkeys. by apply elem_of_sort_strings.
    - exists s. split_and!; [done | apply keyed_columns |].
      simpl. rewrite keyed_worker_ids. by apply elem_of_unique. }
  split_and!.
  - done.
  - intros stats' worker [= <-] Hworker Hnone.
    erewrite mapM_err_any; [done | |].
    + intros x Hx. destruct (Hready x Hx) as (s & Hs & Hk & Hin).
      destruct (describe_worker_outcome stats x w1 s Hk Hin Hs)
        as [Hzero Hpos].
      destruct (decide (length (filter (λ r, is_verbal r = true)
                  (drop_duplicates key
                     (rows (select_worker (annot_df w1) x)))) = 0%nat))
        as [Hz|Hz].
      * right. by apply Hzero.
      * left. destruct (Hpos Hz) as (d & -> & _). by eexists.
    + exists worker. split; [done|].
      destruct (Hready worker Hworker) as (s & Hs & Hk & Hin).
      apply (describe_worker_outcome stats worker w1 s Hk Hin Hs).
      apply length_zero_iff_nil, filter_none, Forall_forall.
      intros r' Hr' Hv. apply elem_of_drop_duplicates_from in Hr'.
      simpl in Hr'. apply list_elem_of_filter in Hr' as [Hid Hr'].
      apply keyed_rows_inv in Hr' as (r & Hr & Hw & Hverb).
      rewrite Forall_forall in Hnone.
      rewrite Hverb, (Hnone r Hr) in Hv; [done | congruence].
  - intros descriptions Hrun. exists stats. split; [done|].
    destruct (mapM (M:=M) _ _ _) as [r w2] eqn:Hmap. simpl in Hrun. subst r.
    apply mapM_inv in Hmap as [_ Hall]; [|apply describe_worker_frame].
    eapply Forall2_impl_elem; [exact Hall|]. clear Hall.
    intros x d Hx Hd. simpl in Hd.
    destruct (Hready x Hx) as (s & Hs & Hk & Hin).
    destruct (describe_worker_outcome stats x w1 s Hk Hin Hs)
      as [Hzero Hpos].
    destruct (decide (length (filter (λ r, is_verbal r = true)
                (drop_duplicates key
                   (rows (select_worker (annot_df w1) x)))) = 0%nat))
      as [Hz|Hz].
    + rewrite (Hzero Hz) in Hd. done.
    + destruct (Hpos Hz) as (d' & Hd' & Hn & Hp & Ha).
      rewrite Hd' in Hd. injection Hd as ->.
      split_and!; [done | by rewrite Hn | by rewrite Ha].
Qed.

Lemma describe_worker_work_outcome_witness :
  (describe_worker_work sample_matcher (MkWorld no_positive_table [])).1
  = Err ZeroDivisionError.
Proof.
  destruct (describe_worker_work_outcome sample_matcher
              (MkWorld no_positive_table [])) as (_ & Hzero & _).
  eapply (Hzero _ "B").
  - by vm_compute.
  - apply elem_of_unique, list_elem_of_In. vm_compute. tauto.
  - vm_compute. repeat constructor; intros; done.
Defined.

(** ** The distribution of the role counts *)

Lemma counter_snoc (values : list nat) (v : nat) :
  counter (values ++ [v])
  = <[v := S (default 0%nat (counter values !! v))]> (counter values).
Proof. unfold counter. by rewrite fold_left_app. Qed.

Lemma counter_weighted_sum (values : list nat) :
  map_fold (λ k v acc, k * v + acc)%nat 0%nat (counter values)
  = sum_list values.
Proof.
  induction values as [|v values IH] using rev_ind; [done|].
  rewrite counter_snoc, sum_list_with_app. simpl. rewrite <- IH.
  set (c := counter values).
  assert (∀ (j1 j2 z1 z2 y : nat),
    (j1 * z1 + (j2 * z2 + y) = j2 * z2 + (j1 * z1 + y))%nat) as Hcomm
    by (intros; lia).
  destruct (c !! v) as [n|] eqn:Hv; simpl.
  - rewrite <- insert_delete_eq.
    rewrite map_fold_insert_L; [| by intros; apply Hcomm
                                | by rewrite lookup_delete_eq].
    rewrite (map_fold_delete_L _ _ v n c); [lia | by intros; apply Hcomm | done].
  - rewrite map_fold_insert_L; [lia | by intros; apply Hcomm | done].
Qed.

Lemma filter_ext_elem {A} (P Q : A → Prop) `{∀ x, Decision (P x)}
    `{∀ x, Decision (Q x)} (l : list A) :
  (∀ x, x ∈ l → P x ↔ Q x) → filter P l = filter Q l.
Proof.
  induction l as [|x l IH]; intros Hext; [done|].
  assert (filter P l = filter Q l) as Hrest.
  { apply IH. intros y Hy. apply Hext. by right. }
  destruct (decide (P x)) as [HP|HP].
  - rewrite !filter_cons_True, Hrest; [done | | done].
    apply Hext; [by left | done].
  - rewrite !filter_cons_False, Hrest; [done | | done].
    intros HQ. apply HP, Hext; [by left | done].
Qed.

Lemma sum_count_by {K B} `{EqDecision K} (q : Row → option B) (f : Row → K)
    (ks : list K) (l : list Row) :
  NoDup ks →
  sum_list ((λ k, count_notna q (filter (λ r, f r = k) l)) <$> ks)
  = count_notna q (filter (λ r, f r ∈ ks) l).
Proof.
  induction 1 as [|k ks Hk Hnd IH].
  - simpl. rewrite filter_none; [done|].
    apply Forall_forall. by intros r _ ?%elem_of_nil.
  - rewrite fmap_cons. simpl. rewrite IH.
    rewrite (count_notna_split q (λ r, f r = k) (λ r, f r ∈ ks)).
    + f_equal. apply list_filter_iff. intros r. rewrite elem_of_cons. done.
    + intros r -> ?. done.
Qed.

(** X16. The mean number of roles [describe_worker_work] prints for a
    worker is the number of answered questions in the worker's rows marked
    verbal (those with a key) divided by the worker's number of positive
    predicates: the weighted sum over the distribution of role counts adds
    up to that number of questions.  The printed ratio is the number of
    positive predicates over the number of predicates. *)
Theorem describe_worker_average
    (stats : list (string * WorkerStatistics)) (worker : string)
    (w w' : World) (d : WorkerDescription) :
  describe_worker stats worker w = (Ok d, w') →
  let verbal :=
    filter (λ r, is_verbal r = true)
      (rows (select_worker (annot_df w) worker)) in
  let n_questions :=
    count_notna question (filter (λ r, is_Some (key r)) verbal) in
  map_fold (λ k v acc, k * v + acc)%nat 0%nat (descr_roleDist d) = n_questions
  ∧ descr_n_positive_predicates d ≠ 0%nat
  ∧ descr_num_roles_average d
    = (Qnat n_questions / Qnat (descr_n_positive_predicates d))%Q
  ∧ descr_positive_ratio d
    = (Qnat (descr_n_positive_predicates d) / Qnat (descr_n_predicates d))%Q.
Proof.
  intros Hrun verbal n_questions.
  assert (map_fold (λ k v acc, k * v + acc)%nat 0%nat
            (counter ((λ k, count_notna question
                              (filter (λ r, key r = Some k) verbal))
                      <$> unique (omap key verbal)))
          = n_questions) as Hsum.
  { rewrite counter_weighted_sum.
    assert ((λ k, count_notna question (filter (λ r, key r = Some k) verbal))
              <$> unique (omap key verbal)
            = (λ k', count_notna question (filter (λ r, key r = k') verbal))
              <$> (Some <$> unique (omap key verbal))) as ->
      by (by rewrite <- list_fmap_compose).
    rewrite sum_count_by.
    - unfold n_questions. f_equal. apply filter_ext_elem. intros r Hr.
      rewrite list_elem_of_fmap. split.
      + intros (k & -> & _). by eexists.
      + intros [k Hk]. exists k. split; [done|].
        apply elem_of_unique, list_elem_of_omap. by exists r.
    - apply (NoDup_fmap_2 _), NoDup_unique. }
  revert Hrun. unfold describe_worker, mbind, M_bind, get_df, lift.
  cbv beta iota zeta.
  destruct (get_n_positive_predicates _) as [n|e]; [|done].
  case_decide; [|done]. fold verbal. rewrite Hsum.
  unfold true_div. case_decide; [done|]. case_decide; [done|].
  destruct (assoc_get stats worker) as [s|e]; [|done].
  intros [= <- <-]. simpl. by rewrite Hsum.
Qed.

Lemma describe_worker_average_witness :
  ∃ d,
    describe_worker [("A", MkStats 1 1 Metrics.empty 1)] "A"
      (MkWorld (keyed sample_table) [])
    = (Ok d, MkWorld (keyed sample_table) [])
    ∧ map_fold (λ k v acc, k * v + acc)%nat 0%nat (descr_roleDist d) = 1%nat.
Proof.
  assert (∃ d,
    describe_worker [("A", MkStats 1 1 Metrics.empty 1)] "A"
      (MkWorld (keyed sample_table) [])
    = (Ok d, MkWorld (keyed sample_table) [])) as [d Hd].
  { eexists. vm_compute. reflexivity. }
  exists d. split; [exact Hd|].
  destruct (describe_worker_average _ _ _ _ _ Hd) as (-> & _).
  by vm_compute.
Defined.
